(** * SquirrelDB TypeScript SDK: the TCP wire-protocol client

    A shallow embedding of [src/protocol.ts] (framing and handshake codec)
    and [src/tcp.ts] (the wire session: receive buffer, frame extraction,
    dispatch, close handling and the operations of the client), with the
    properties of the specification stated over it.

    Conventions.
    - A [Uint8Array] is a [list byte]; a JavaScript number that holds an
      integer is a [Z].
    - A function that can [throw] returns a [Completion].
    - The stateful class [SquirrelDBTcp] is a record [Client]; a method is a
      function from the client to the new client and the list of effects
      it performed, in the order it performed them, with its
      [Completion] where it can end in an exception. *)

From Stdlib Require Import ZArith Lia.
From Stdlib Require Import Strings.Byte Strings.Ascii.
From stdpp Require Import gmap strings list fin_maps pretty.

Local Open Scope Z_scope.

(** ** JavaScript values the protocol code handles *)

(** [new Error(message)]: two errors with the same text are the same
    condition to whoever catches them. The second kind is the TypeError
    the engine raises when what the expression [callee] evaluates to is
    called and is not a function. Its [message] is given as far as the
    words "is not a function"; what an engine adds after them is its
    own business, and nothing here depends on it. *)
Inductive JsError : Type :=
| Error (message : string)
| TypeError_not_a_function (callee : string).

Definition message (e : JsError) : string :=
  match e with
  | Error m => m
  | TypeError_not_a_function callee => callee +:+ " is not a function"
  end.

(** The outcome of calling a function that may throw. *)
Inductive Completion (A : Type) : Type :=
| Return (a : A)
| Throw (e : JsError).

Arguments Return {A} a.
Arguments Throw {A} e.

(** Template literals render an integer number in decimal. *)
Definition num (n : Z) : string := pretty n.

(** ** Typed arrays and data views *)

Module Bytes.

Definition Uint8Array : Type := list byte.

(** The number stored in one element. *)
Definition to_Z (b : byte) : Z := Z.of_N (Byte.to_N b).

(** Storing a number in one element keeps it modulo 2^8. *)
Definition of_Z (v : Z) : byte :=
  default x00 (Byte.of_N (Z.to_N (v mod 256))).

(** [a.length] *)
Definition len (a : Uint8Array) : Z := Z.of_nat (length a).

(** [a[i]] for an index the caller has already checked to be in range. *)
Definition at_ (a : Uint8Array) (i : nat) : Z := to_Z (nth i a x00).

(** [new Uint8Array(n)] and [new ArrayBuffer(n)]: n zero bytes. *)
Definition alloc (n : nat) : Uint8Array := replicate n x00.

(** How [slice] reads one of its arguments against the array length:
    a negative index counts from the end, and both are clamped. *)
Definition rel_index (length i : Z) : Z :=
  if i <? 0 then Z.max (length + i) 0 else Z.min i length.

(** [a.slice(start, end)]: a copy of the elements from [start] up to,
    not including, [end]; empty when [end] does not exceed [start]. *)
Definition slice (a : Uint8Array) (start end_ : Z) : Uint8Array :=
  let k := rel_index (len a) start in
  let final := rel_index (len a) end_ in
  take (Z.to_nat (final - k)) (drop (Z.to_nat k) a).

(** [a.slice(start)] *)
Definition slice_from (a : Uint8Array) (start : Z) : Uint8Array :=
  slice a start (len a).

(** [target.set(source, offset)]: copies [source] into [target] from
    [offset] on. The callers below allocate [target] large enough, so
    the RangeError of an overflowing copy cannot occur. *)
Definition set (target source : Uint8Array) (offset : nat) : Uint8Array :=
  list_inserts offset source target.

(** [view.setUint8(offset, v)], in range in every caller. *)
Definition setUint8 (buffer : Uint8Array) (offset : nat) (v : Z)
  : Uint8Array :=
  <[offset := of_Z v]> buffer.

(** [view.setUint16(offset, v, false)]: v modulo 2^16, big-endian. *)
Definition setUint16 (buffer : Uint8Array) (offset : nat) (v : Z)
  : Uint8Array :=
  let w := v mod 2 ^ 16 in
  <[S offset := of_Z w]> (<[offset := of_Z (w / 2 ^ 8)]> buffer).

(** [view.setUint32(offset, v, false)]: v modulo 2^32, big-endian. *)
Definition setUint32 (buffer : Uint8Array) (offset : nat) (v : Z)
  : Uint8Array :=
  let w := v mod 2 ^ 32 in
  <[S (S (S offset)) := of_Z w]>
    (<[S (S offset) := of_Z (w / 2 ^ 8)]>
       (<[S offset := of_Z (w / 2 ^ 16)]>
          (<[offset := of_Z (w / 2 ^ 24)]> buffer))).

(** [view.getUint32(offset, false)], in range in every caller. *)
Definition getUint32 (buffer : Uint8Array) (offset : nat) : Z :=
  at_ buffer offset * 2 ^ 24
  + at_ buffer (S offset) * 2 ^ 16
  + at_ buffer (S (S offset)) * 2 ^ 8
  + at_ buffer (S (S (S offset))).

End Bytes.

Import Bytes.

(** ** protocol.ts: constants, handshake packet and frame header *)

Module Protocol.

Definition MAGIC : Uint8Array := [x53; x51; x52; x4c].
Definition PROTOCOL_VERSION : Z := 1.
Definition MAX_MESSAGE_SIZE : Z := 16 * 1024 * 1024.

Module HandshakeStatus.
Definition Success : Z := 0.
Definition VersionMismatch : Z := 1.
Definition AuthFailed : Z := 2.
End HandshakeStatus.

Inductive MessageType : Type := Request | Response | Notification.

Definition MessageType_value (t : MessageType) : Z :=
  match t with Request => 1 | Response => 2 | Notification => 3 end.

Inductive Encoding : Type := MessagePack | Json.

Definition Encoding_value (e : Encoding) : Z :=
  match e with MessagePack => 1 | Json => 2 end.

Record ProtocolFlags : Type := {
  messagepack : bool;
  jsonFallback : bool
}.

Definition flagsToByte (flags : ProtocolFlags) : Z :=
  let byte := 0 in
  let byte := if messagepack flags then Z.lor byte 1 else byte in
  let byte := if jsonFallback flags then Z.lor byte 2 else byte in
  byte.

Definition byteToFlags (byte : Z) : ProtocolFlags :=
  {| messagepack := negb (Z.land byte 1 =? 0);
     jsonFallback := negb (Z.land byte 2 =? 0) |}.

(** [buildHandshake]; [tokenBytes] is the UTF-8 encoding of the token. *)
Definition buildHandshake (tokenBytes : Uint8Array) (flags : ProtocolFlags)
  : Uint8Array :=
  let bytes := alloc (8 + length tokenBytes) in
  let bytes := Bytes.set bytes MAGIC 0 in
  let bytes := setUint8 bytes 4 PROTOCOL_VERSION in
  let bytes := setUint8 bytes 5 (flagsToByte flags) in
  let bytes := setUint16 bytes 6 (len tokenBytes) in
  Bytes.set bytes tokenBytes 8.

Record HandshakeResponse : Type := {
  status : Z;
  version : Z;
  flags : ProtocolFlags;
  sessionId : Uint8Array
}.

Definition parseHandshakeResponse (data : Uint8Array)
  : Completion HandshakeResponse :=
  if len data <? 19 then
    Throw (Error ("Handshake response too short: " +:+ num (len data)
                  +:+ " bytes"))
  else
    Return {| status := at_ data 0;
              version := at_ data 1;
              flags := byteToFlags (at_ data 2);
              sessionId := slice data 3 19 |}.

Definition buildFrame (msgType : MessageType) (encoding : Encoding)
    (payload : Uint8Array) : Uint8Array :=
  let length_ := len payload + 2 in
  let bytes := alloc (6 + length payload) in
  let bytes := setUint32 bytes 0 length_ in
  let bytes := setUint8 bytes 4 (MessageType_value msgType) in
  let bytes := setUint8 bytes 5 (Encoding_value encoding) in
  Bytes.set bytes payload 6.

Record FrameHeader : Type := {
  payloadLength : Z;
  msgType : Z;
  encoding : Z
}.

Definition parseFrameHeader (data : Uint8Array) : Completion FrameHeader :=
  if len data <? 6 then
    Throw (Error ("Frame header too short: " +:+ num (len data)
                  +:+ " bytes"))
  else
    let length_ := getUint32 data 0 in
    let payloadLength := length_ - 2 in
    Return {| payloadLength := payloadLength;
              msgType := at_ data 4;
              encoding := at_ data 5 |}.

Definition hexDigit (d : Z) : ascii :=
  match d with
  | 0 => "0" | 1 => "1" | 2 => "2" | 3 => "3" | 4 => "4" | 5 => "5"
  | 6 => "6" | 7 => "7" | 8 => "8" | 9 => "9" | 10 => "a" | 11 => "b"
  | 12 => "c" | 13 => "d" | 14 => "e" | _ => "f"
  end%char.

(** [b.toString(16).padStart(2, "0")] for a byte. *)
Definition hexByte (b : byte) : string :=
  String (hexDigit (to_Z b / 16)) (String (hexDigit (to_Z b mod 16)) EmptyString).

(** [s.slice(i, j)] for indices within the string. *)
Definition strSlice (s : string) (i j : nat) : string :=
  String.substring i (j - i) s.

Definition uuidToString (bytes : Uint8Array) : string :=
  let hex := String.concat EmptyString (map hexByte bytes) in
  strSlice hex 0 8 +:+ "-" +:+ strSlice hex 8 12 +:+ "-"
  +:+ strSlice hex 12 16 +:+ "-" +:+ strSlice hex 16 20 +:+ "-"
  +:+ strSlice hex 20 (String.length hex).

End Protocol.

Import Protocol.

(** ** types.ts: the messages of the protocol *)

Module Types.

Section Unknown.

(** The TypeScript type [unknown]: document data and query results,
    which the client carries without looking inside. *)
Variable unknown : Type.

Record Document : Type := {
  doc_id : string;
  collection : string;
  data : unknown;
  created_at : string;
  updated_at : string
}.

(** Tagged by [type]: "initial", "insert", "update", "delete". *)
Inductive ChangeEvent : Type :=
| E_initial (document : Document)
| E_insert (new : Document)
| E_update (old : unknown) (new : Document)
| E_delete (old : Document).

(** Client -> server, tagged by [type]. *)
Inductive ClientMessage : Type :=
| C_query (id : string) (query : string)
| C_subscribe (id : string) (query : string)
| C_unsubscribe (id : string)
| C_insert (id : string) (collection : string) (data : unknown)
| C_update (id : string) (collection : string) (document_id : string)
           (data : unknown)
| C_delete (id : string) (collection : string) (document_id : string)
| C_listcollections (id : string)
| C_ping (id : string).

(** Server -> client, tagged by [type]. *)
Inductive ServerMessage : Type :=
| S_result (id : string) (data : unknown)
| S_change (id : string) (change : ChangeEvent)
| S_subscribed (id : string)
| S_unsubscribed (id : string)
| S_error (id : string) (error : string)
| S_pong (id : string).

(** [msg.type] *)
Definition type_ (msg : ServerMessage) : string :=
  match msg with
  | S_result _ _ => "result"
  | S_change _ _ => "change"
  | S_subscribed _ => "subscribed"
  | S_unsubscribed _ => "unsubscribed"
  | S_error _ _ => "error"
  | S_pong _ => "pong"
  end.

(** [msg.id] *)
Definition id_ (msg : ServerMessage) : string :=
  match msg with
  | S_result id _ | S_change id _ | S_subscribed id
  | S_unsubscribed id | S_error id _ | S_pong id => id
  end.

(** [msg.id] of a request. *)
Definition request_id (msg : ClientMessage) : string :=
  match msg with
  | C_query id _ | C_subscribe id _ | C_unsubscribe id
  | C_insert id _ _ | C_update id _ _ _ | C_delete id _ _
  | C_listcollections id | C_ping id => id
  end.

End Unknown.

Arguments doc_id {unknown} _.
Arguments collection {unknown} _.
Arguments data {unknown} _.
Arguments created_at {unknown} _.
Arguments updated_at {unknown} _.
Arguments E_initial {unknown} document.
Arguments E_insert {unknown} new.
Arguments E_update {unknown} old new.
Arguments E_delete {unknown} old.
Arguments C_query {unknown} id query.
Arguments C_subscribe {unknown} id query.
Arguments C_unsubscribe {unknown} id.
Arguments C_insert {unknown} id collection data.
Arguments C_update {unknown} id collection document_id data.
Arguments C_delete {unknown} id collection document_id.
Arguments C_listcollections {unknown} id.
Arguments C_ping {unknown} id.
Arguments S_result {unknown} id data.
Arguments S_change {unknown} id change.
Arguments S_subscribed {unknown} id.
Arguments S_unsubscribed {unknown} id.
Arguments S_error {unknown} id error.
Arguments S_pong {unknown} id.
Arguments type_ {unknown} msg.
Arguments id_ {unknown} msg.
Arguments request_id {unknown} msg.

End Types.

Import Types.

(** ** protocol.ts: the message codec

    [encodeMessage] and [decodeMessage] choose between two serialisers that
    are not part of this repository: msgpackr's [pack]/[unpack] and the
    runtime's [JSON.stringify]/[JSON.parse] with [TextEncoder] and
    [TextDecoder]. They are an interface here. The client encodes
    [ClientMessage]s and reads what it decodes at the type it gives
    [decodeMessage], [ServerMessage]; a decoder that throws is a
    [Throw]. *)

Class Serialisers (unknown : Type) : Type := {
  pack : ClientMessage unknown -> Uint8Array;
  unpack : Uint8Array -> Completion (ServerMessage unknown);
  JSON_stringify : ClientMessage unknown -> string;
  JSON_parse : string -> Completion (ServerMessage unknown);
  TextEncoder_encode : string -> Uint8Array;
  TextDecoder_decode : Uint8Array -> string
}.

Module Codec.

Section Codec.

Context {unknown : Type} `{!Serialisers unknown}.

Definition encodeMessage (msg : ClientMessage unknown)
    (encoding : Encoding) : Uint8Array :=
  match encoding with
  | MessagePack => pack msg
  | Json => TextEncoder_encode (JSON_stringify msg)
  end.

(** The encoding is the raw byte of a frame header here: every value
    other than [Encoding.MessagePack] takes the JSON branch. *)
Definition decodeMessage (data : Uint8Array) (encoding : Z)
  : Completion (ServerMessage unknown) :=
  if encoding =? Encoding_value MessagePack then unpack data
  else JSON_parse (TextDecoder_decode data).

End Codec.

End Codec.

Import Codec.

(** ** A JavaScript [Map] with string keys

    Entries keep the order in which their keys were first inserted, which
    is the order a [for ... of] loop visits them in. *)

Module JsMap.

Section JsMap.

Context {V : Type}.

Definition t : Type := list (string * V).

Definition empty : t := [].

Fixpoint get (m : t) (k : string) : option V :=
  match m with
  | [] => None
  | (k', v) :: m' => if decide (k' = k) then Some v else get m' k
  end.

(** [m.set(k, v)]: a key already present keeps its place. *)
Fixpoint set (m : t) (k : string) (v : V) : t :=
  match m with
  | [] => [(k, v)]
  | (k', v') :: m' =>
      if decide (k' = k) then (k, v) :: m' else (k', v') :: set m' k v
  end.

Fixpoint delete (m : t) (k : string) : t :=
  match m with
  | [] => []
  | (k', v) :: m' =>
      if decide (k' = k) then delete m' k else (k', v) :: delete m' k
  end.

Definition clear (m : t) : t := [].

Definition values (m : t) : list V := map snd m.

End JsMap.

Arguments t V : clear implicits.

End JsMap.

(** ** tcp.ts: the wire session *)

Module Tcp.

(** The options after the constructor has filled in the defaults. *)
Record TcpConnectOptions : Type := {
  host : string;
  port : Z;
  authToken : string;
  useMessagePack : bool;
  jsonFallback : bool
}.

(** What the field [socket] holds when it is not [null]: the value
    [connectSocket] assigns to it, which is what [Bun.connect] returns.
    [Bun.connect] returns a promise of the socket, and [connectSocket]
    stores it without awaiting it. A promise has no [write] and no [end]:
    calling either on the field raises a TypeError. (The socket itself
    reaches the handlers as their argument; the [open] handler writes the
    handshake to that.) *)
Inductive Socket : Type := BunConnectPromise.

(** The promise [connectSocket] returns, the promise a call of [send]
    returns, and a function the user passed to [subscribe]: each is
    known by its identity only. *)
Inductive ConnectPromise : Type := connect_promise (n : nat).
Inductive RequestPromise : Type := request_promise (n : nat).
Inductive Callback : Type := user_function (n : nat).

(** The [resolve] and [reject] functions of a promise, named by the
    promise they settle. *)
Record PendingRequest : Type := {
  resolve : RequestPromise;
  reject : RequestPromise
}.

Record Subscription : Type := {
  callback : Callback
}.

(** How an awaited promise settled. *)
Inductive Settled (A : Type) : Type :=
| Fulfilled (a : A)
| Rejected (err : JsError).

Arguments Fulfilled {A} a.
Arguments Rejected {A} err.

Section Session.

Context {unknown : Type} `{!Serialisers unknown}.

(** What a method does to the world outside the client object: writes to
    the socket, calls of the [resolve] and [reject] functions of promises,
    calls of the user's subscription callbacks and lines on the console.
    A call is recorded as such; settling a promise resumes its awaiter
    only after the running handler has returned, and what a user's
    callback does in turn is not part of the method that calls it. An
    exception that leaves the executor of a promise makes the promise
    constructor call the [reject] function of that promise with it; a
    call of [resolve] or [reject] on a promise already settled is still
    a call, and changes nothing about the promise. [SocketEnd] is the
    end of the socket, which is what terminating a session would be. *)
Inductive Effect : Type :=
| SocketWrite (bytes : Uint8Array)
| SocketEnd
| ResolveConnect (p : ConnectPromise)
| RejectConnect (p : ConnectPromise) (err : JsError)
| Resolve (p : RequestPromise) (msg : ServerMessage unknown)
| Reject (p : RequestPromise) (err : JsError)
| Invoke (f : Callback) (change : ChangeEvent unknown)
| ConsoleError (args : list string)
| Uncaught (err : JsError).

(** The private fields of [SquirrelDBTcp]. *)
Record Client : Type := {
  socket : option Socket;
  options : TcpConnectOptions;
  sessionId : option string;
  encoding : Encoding;
  pending : JsMap.t PendingRequest;
  subscriptions : gmap string Subscription;
  requestId : Z;
  readBuffer : Uint8Array;
  handshakeResolve : option ConnectPromise;
  handshakeReject : option ConnectPromise;
  handshakeCompleted : bool
}.

Definition set_socket (v : option Socket) (c : Client) : Client :=
  {| socket := v; options := options c; sessionId := sessionId c;
     encoding := encoding c; pending := pending c;
     subscriptions := subscriptions c; requestId := requestId c;
     readBuffer := readBuffer c;
     handshakeResolve := handshakeResolve c;
     handshakeReject := handshakeReject c;
     handshakeCompleted := handshakeCompleted c |}.

Definition set_sessionId (v : option string) (c : Client) : Client :=
  {| socket := socket c; options := options c; sessionId := v;
     encoding := encoding c; pending := pending c;
     subscriptions := subscriptions c; requestId := requestId c;
     readBuffer := readBuffer c;
     handshakeResolve := handshakeResolve c;
     handshakeReject := handshakeReject c;
     handshakeCompleted := handshakeCompleted c |}.

Definition set_encoding (v : Encoding) (c : Client) : Client :=
  {| socket := socket c; options := options c; sessionId := sessionId c;
     encoding := v; pending := pending c;
     subscriptions := subscriptions c; requestId := requestId c;
     readBuffer := readBuffer c;
     handshakeResolve := handshakeResolve c;
     handshakeReject := handshakeReject c;
     handshakeCompleted := handshakeCompleted c |}.

Definition set_pending (v : JsMap.t PendingRequest) (c : Client)
  : Client :=
  {| socket := socket c; options := options c; sessionId := sessionId c;
     encoding := encoding c; pending := v;
     subscriptions := subscriptions c; requestId := requestId c;
     readBuffer := readBuffer c;
     handshakeResolve := handshakeResolve c;
     handshakeReject := handshakeReject c;
     handshakeCompleted := handshakeCompleted c |}.

Definition set_subscriptions (v : gmap string Subscription) (c : Client)
  : Client :=
  {| socket := socket c; options := options c; sessionId := sessionId c;
     encoding := encoding c; pending := pending c;
     subscriptions := v; requestId := requestId c;
     readBuffer := readBuffer c;
     handshakeResolve := handshakeResolve c;
     handshakeReject := handshakeReject c;
     handshakeCompleted := handshakeCompleted c |}.

Definition set_requestId (v : Z) (c : Client) : Client :=
  {| socket := socket c; options := options c; sessionId := sessionId c;
     encoding := encoding c; pending := pending c;
     subscriptions := subscriptions c; requestId := v;
     readBuffer := readBuffer c;
     handshakeResolve := handshakeResolve c;
     handshakeReject := handshakeReject c;
     handshakeCompleted := handshakeCompleted c |}.

Definition set_readBuffer (v : Uint8Array) (c : Client) : Client :=
  {| socket := socket c; options := options c; sessionId := sessionId c;
     encoding := encoding c; pending := pending c;
     subscriptions := subscriptions c; requestId := requestId c;
     readBuffer := v;
     handshakeResolve := handshakeResolve c;
     handshakeReject := handshakeReject c;
     handshakeCompleted := handshakeCompleted c |}.

Definition set_handshake (res rej : option ConnectPromise) (c : Client)
  : Client :=
  {| socket := socket c; options := options c; sessionId := sessionId c;
     encoding := encoding c; pending := pending c;
     subscriptions := subscriptions c; requestId := requestId c;
     readBuffer := readBuffer c;
     handshakeResolve := res;
     handshakeReject := rej;
     handshakeCompleted := handshakeCompleted c |}.

Definition set_handshakeCompleted (v : bool) (c : Client) : Client :=
  {| socket := socket c; options := options c; sessionId := sessionId c;
     encoding := encoding c; pending := pending c;
     subscriptions := subscriptions c; requestId := requestId c;
     readBuffer := readBuffer c;
     handshakeResolve := handshakeResolve c;
     handshakeReject := handshakeReject c;
     handshakeCompleted := v |}.

(** The object the private constructor builds. *)
Definition new_SquirrelDBTcp (options : TcpConnectOptions) : Client :=
  {| socket := None; options := options; sessionId := None;
     encoding := MessagePack; pending := JsMap.empty;
     subscriptions := ∅; requestId := 0; readBuffer := [];
     handshakeResolve := None; handshakeReject := None;
     handshakeCompleted := false |}.

(** [this.handshakeReject?.(err)] *)
Definition handshakeReject_opt (c : Client) (err : JsError)
  : list Effect :=
  match handshakeReject c with
  | Some p => [RejectConnect p err]
  | None => []
  end.

(** [this.handshakeResolve?.()] *)
Definition handshakeResolve_opt (c : Client) : list Effect :=
  match handshakeResolve c with
  | Some p => [ResolveConnect p]
  | None => []
  end.

Definition dispatchMessage (c : Client) (msg : ServerMessage unknown)
  : Client * list Effect :=
  match msg with
  | S_change id change =>
      match subscriptions c !! id with
      | Some sub => (c, [Invoke (callback sub) change])
      | None => (c, [])
      end
  | _ =>
      match JsMap.get (pending c) (id_ msg) with
      | Some p =>
          (set_pending (JsMap.delete (pending c) (id_ msg)) c,
           [Resolve (resolve p) msg])
      | None => (c, [])
      end
  end.

(** One pass through the body of the [while] loop of [processFrames]:
    either the loop is left ([Leave]) or it goes round again
    ([Again]). *)
Inductive Iteration : Type :=
| Leave (c : Client) (out : list Effect)
| Again (c : Client) (out : list Effect).

Definition processFrames_body (c : Client) : Iteration :=
  match parseFrameHeader (readBuffer c) with
  | Throw e => Leave c [Uncaught e]
  | Return header =>
      if payloadLength header >? MAX_MESSAGE_SIZE then
        Leave c [ConsoleError
                   ["Message too large: "
                    +:+ num (payloadLength header)]]
      else
        let totalLength := 6 + payloadLength header in
        if len (readBuffer c) <? totalLength then
          Leave c []
        else
          let payload := slice (readBuffer c) 6 totalLength in
          let c := set_readBuffer
                     (slice_from (readBuffer c) totalLength) c in
          match decodeMessage payload (Protocol.encoding header) with
          | Return msg =>
              let '(c, out) := dispatchMessage c msg in
              Again c out
          | Throw e =>
              Again c [ConsoleError
                         ["Failed to decode message:"; message e]]
          end
  end.

(** The loop, run for at most [fuel] passes; [None] when they do not
    suffice. *)
Fixpoint processFrames_loop (fuel : nat) (c : Client)
  : option (Client * list Effect) :=
  match fuel with
  | O => None
  | S fuel' =>
      if len (readBuffer c) >=? 6 then
        match processFrames_body c with
        | Leave c' out => Some (c', out)
        | Again c' out =>
            match processFrames_loop fuel' c' with
            | Some (c'', out') => Some (c'', out ++ out')
            | None => None
            end
        end
      else Some (c, [])
  end.

(** Every pass that goes round again shortens the buffer, so one pass
    more than the buffer has bytes is always enough
    (see [processFrames_returns]). *)
Definition processFrames (c : Client) : option (Client * list Effect) :=
  processFrames_loop (S (length (readBuffer c))) c.

Definition handleData (c : Client) (data : Uint8Array)
  : option (Client * list Effect) :=
  let c := set_readBuffer (readBuffer c ++ data) c in
  if negb (handshakeCompleted c) then
    if len (readBuffer c) >=? 19 then
      match parseHandshakeResponse (slice (readBuffer c) 0 19) with
      | Return response =>
          let c := set_readBuffer (slice_from (readBuffer c) 19) c in
          if status response =? HandshakeStatus.VersionMismatch then
            Some (c, handshakeReject_opt c
                       (Error ("Version mismatch: server="
                               +:+ num (version response)
                               +:+ ", client="
                               +:+ num PROTOCOL_VERSION)))
          else if status response =? HandshakeStatus.AuthFailed then
            Some (c, handshakeReject_opt c
                       (Error "Authentication failed"))
          else if negb (status response =? HandshakeStatus.Success) then
            Some (c, handshakeReject_opt c
                       (Error ("Unexpected status: "
                               +:+ num (status response))))
          else
            let c := set_sessionId
                       (Some (uuidToString
                                (Protocol.sessionId response))) c in
            let c := set_encoding
                       (if messagepack (flags response)
                        then MessagePack else Json) c in
            let c := set_handshakeCompleted true c in
            Some (c, handshakeResolve_opt c)
      | Throw e => Some (c, handshakeReject_opt c e)
      end
    else Some (c, [])
  else processFrames c.

Definition handleClose (c : Client) : Client * list Effect :=
  let out :=
    map (fun req => Reject (reject req) (Error "Connection closed"))
        (JsMap.values (pending c)) in
  (set_pending (JsMap.clear (pending c)) c, out).

(** [nextId]: the new state and the id it returns. The counter is a
    JavaScript number; it counts exactly as long as it stays below 2^53,
    which is where what is said about it here is stated. *)
Definition nextId (c : Client) : Client * string :=
  let c := set_requestId (requestId c + 1) c in
  (c, num (requestId c)).

(** The executor of the promise [send] returns; [p] is that promise.
    With the field [socket] set, the request is registered and framed, and
    then [this.socket.write(frame)] is called on the promise the field
    holds: the call raises a TypeError, nothing is written, and the
    exception, leaving the executor, rejects [p]. *)
Definition send (c : Client) (msg : ClientMessage unknown)
    (p : RequestPromise) : Client * list Effect :=
  match socket c with
  | None => (c, [Reject p (Error "Not connected")])
  | Some BunConnectPromise =>
      let c := set_pending
                 (JsMap.set (pending c) (request_id msg)
                            {| resolve := p; reject := p |}) c in
      let payload := encodeMessage msg (encoding c) in
      let frame := buildFrame Request (encoding c) payload in
      (c, [Reject p (TypeError_not_a_function "this.socket.write")])
  end.

(** *** The operations of the client

    An [async] method runs up to its [await], and is resumed when the
    awaited promise settles. Each is therefore two functions: the
    part before the [await] (under the method's name) and the part
    after it ([..._resume]), which receives how the promise settled. *)

Definition query (c : Client) (q : string) (p : RequestPromise)
  : Client * list Effect :=
  let '(c, id) := nextId c in
  send c (C_query id q) p.

Definition query_resume (r : Settled (ServerMessage unknown))
  : Completion unknown :=
  match r with
  | Rejected err => Throw err
  | Fulfilled resp =>
      match resp with
      | S_error _ error => Throw (Error error)
      | S_result _ data => Return data
      | _ => Throw (Error "Unexpected response")
      end
  end.

Definition queryRaw (c : Client) (q : string) (p : RequestPromise)
  : Client * list Effect :=
  let '(c, id) := nextId c in
  send c (C_query id q) p.

Definition queryRaw_resume (r : Settled (ServerMessage unknown))
  : Completion unknown :=
  match r with
  | Rejected err => Throw err
  | Fulfilled resp =>
      match resp with
      | S_error _ error => Throw (Error error)
      | S_result _ data => Return data
      | _ => Throw (Error "Unexpected response")
      end
  end.

(** The handle [subscribe] returns (its [client] field is the client
    object itself). *)
Record TcpSubscription : Type := {
  subscription_id : string
}.

(** Also returns the [id] it keeps for after the [await]. *)
Definition subscribe (c : Client) (q : string) (p : RequestPromise)
  : Client * list Effect * string :=
  let '(c, id) := nextId c in
  (send c (C_subscribe id q) p, id).

Definition subscribe_resume (c : Client) (id : string)
    (callback : Callback) (r : Settled (ServerMessage unknown))
  : Client * Completion TcpSubscription :=
  match r with
  | Rejected err => (c, Throw err)
  | Fulfilled resp =>
      match resp with
      | S_error _ error => (c, Throw (Error error))
      | _ =>
          (set_subscriptions
             (<[id := {| callback := callback |}]> (subscriptions c)) c,
           Return {| subscription_id := id |})
      end
  end.

(** [unsubscribe] has no [await]: it runs to its end in one go. With
    the field [socket] set, that end is the TypeError of
    [this.socket.write(frame)] on the promise the field holds. *)
Definition unsubscribe (c : Client) (subscriptionId : string)
  : Client * list Effect * Completion unit :=
  let c := set_subscriptions
             (base.delete subscriptionId (subscriptions c)) c in
  match socket c with
  | Some BunConnectPromise =>
      let msg : ClientMessage unknown := C_unsubscribe subscriptionId in
      let payload := encodeMessage msg (encoding c) in
      let frame := buildFrame Request (encoding c) payload in
      (c, [], Throw (TypeError_not_a_function "this.socket.write"))
  | None => (c, [], Return tt)
  end.

Definition insert (c : Client) (collection : string) (data : unknown)
    (p : RequestPromise) : Client * list Effect :=
  let '(c, id) := nextId c in
  send c (C_insert id collection data) p.

Definition insert_resume (r : Settled (ServerMessage unknown))
  : Completion unknown :=
  match r with
  | Rejected err => Throw err
  | Fulfilled resp =>
      match resp with
      | S_error _ error => Throw (Error error)
      | S_result _ data => Return data
      | _ => Throw (Error "Unexpected response")
      end
  end.

Definition update (c : Client) (collection documentId : string)
    (data : unknown) (p : RequestPromise) : Client * list Effect :=
  let '(c, id) := nextId c in
  send c (C_update id collection documentId data) p.

Definition update_resume (r : Settled (ServerMessage unknown))
  : Completion unknown :=
  match r with
  | Rejected err => Throw err
  | Fulfilled resp =>
      match resp with
      | S_error _ error => Throw (Error error)
      | S_result _ data => Return data
      | _ => Throw (Error "Unexpected response")
      end
  end.

Definition delete (c : Client) (collection documentId : string)
    (p : RequestPromise) : Client * list Effect :=
  let '(c, id) := nextId c in
  send c (C_delete id collection documentId) p.

Definition delete_resume (r : Settled (ServerMessage unknown))
  : Completion unknown :=
  match r with
  | Rejected err => Throw err
  | Fulfilled resp =>
      match resp with
      | S_error _ error => Throw (Error error)
      | S_result _ data => Return data
      | _ => Throw (Error "Unexpected response")
      end
  end.

Definition listCollections (c : Client) (p : RequestPromise)
  : Client * list Effect :=
  let '(c, id) := nextId c in
  send c (C_listcollections id) p.

Definition listCollections_resume (r : Settled (ServerMessage unknown))
  : Completion unknown :=
  match r with
  | Rejected err => Throw err
  | Fulfilled resp =>
      match resp with
      | S_error _ error => Throw (Error error)
      | S_result _ data => Return data
      | _ => Throw (Error "Unexpected response")
      end
  end.

Definition ping (c : Client) (p : RequestPromise)
  : Client * list Effect :=
  let '(c, id) := nextId c in
  send c (C_ping id) p.

Definition ping_resume (r : Settled (ServerMessage unknown))
  : Completion unit :=
  match r with
  | Rejected err => Throw err
  | Fulfilled resp =>
      match resp with
      | S_pong _ => Return tt
      | _ => Throw (Error "Unexpected response")
      end
  end.

(** [close]: with the field [socket] set, [this.socket?.end()] finds no
    [end] on the promise the field holds and raises a TypeError, so the
    assignment of [null] after it is not reached. *)
Definition close (c : Client) : Client * list Effect * Completion unit :=
  let c := set_subscriptions ∅ c in
  match socket c with
  | Some BunConnectPromise =>
      (c, [], Throw (TypeError_not_a_function "this.socket?.end"))
  | None => (set_socket None c, [], Return tt)
  end.

(** *** The socket handlers installed by [connectSocket] *)

(** The executor of the promise [connectSocket] returns; [p] is that
    promise. The field [socket] receives what [Bun.connect] returns. *)
Definition connectSocket (c : Client) (p : ConnectPromise) : Client :=
  let c := set_handshake (Some p) (Some p) c in
  set_socket (Some BunConnectPromise) c.

Inductive SocketEvent : Type :=
| on_open
| on_data (data : Uint8Array)
| on_close
| on_error (error : string).

Definition handle (c : Client) (ev : SocketEvent)
  : option (Client * list Effect) :=
  match ev with
  | on_open =>
      let handshake :=
        buildHandshake
          (TextEncoder_encode (authToken (options c)))
          {| messagepack := useMessagePack (options c);
             Protocol.jsonFallback := jsonFallback (options c) |} in
      Some (c, [SocketWrite handshake])
  | on_data data => handleData c data
  | on_close => Some (handleClose c)
  | on_error error =>
      if negb (handshakeCompleted c) then
        Some (c, handshakeReject_opt c
                   (Error ("Connection error: " +:+ error)))
      else Some (c, [])
  end.

(** The handlers run one after the other, each to its end. *)
Fixpoint run (c : Client) (evs : list SocketEvent)
  : option (Client * list Effect) :=
  match evs with
  | [] => Some (c, [])
  | ev :: evs' =>
      match handle c ev with
      | Some (c', out) =>
          match run c' evs' with
          | Some (c'', out') => Some (c'', out ++ out')
          | None => None
          end
      | None => None
      end
  end.

End Session.

End Tcp.

(** ** The properties as the specification words them *)

(** The frame round-trip as the specification words it, without a bound
    on the payload. *)
Definition frame_roundtrip_for_every_payload : Prop :=
  forall (t : MessageType) (e : Encoding) (payload : Uint8Array),
    exists header,
      parseFrameHeader (buildFrame t e payload) = Return header
      /\ payloadLength header = len payload
      /\ msgType header = MessageType_value t
      /\ Protocol.encoding header = Encoding_value e.


Section AsStated.

Context {unknown : Type} `{!Serialisers unknown}.

Import Tcp.

(** The next frame header in the buffer declares more than the maximum
    message size. *)
Definition header_oversized (c : Client) : Prop :=
  exists header,
    parseFrameHeader (readBuffer c) = Return header
    /\ payloadLength header > MAX_MESSAGE_SIZE.

(** Terminating the session: the connection is closed and the outstanding
    operations of [c] are failed. *)
Definition session_terminated (c : Client)
    (r : option (Client * list (@Effect unknown))) : Prop :=
  exists c' out,
    r = Some (c', out)
    /\ socket c' = None /\ SocketEnd ∈ out
    /\ pending c' = JsMap.empty
    /\ forall req, req ∈ JsMap.values (pending c) ->
                   Reject (reject req) (Error "Connection closed") ∈ out.

(** The oversized-frame guard as the specification words it. *)
Definition oversized_frame_is_fatal : Prop :=
  forall c : Client,
    handshakeCompleted c = true -> header_oversized c ->
    session_terminated c (processFrames c).

(** Entering Closed from [c], as the specification words it: every
    pending request failed and the table empty, the subscription table
    empty and no callback invoked. *)
Definition entered_Closed (c : Client)
    (r : Client * list (@Effect unknown)) : Prop :=
  pending r.1 = JsMap.empty
  /\ (forall req, req ∈ JsMap.values (pending c) ->
                  Reject (reject req) (Error "Connection closed") ∈ r.2)
  /\ subscriptions r.1 = ∅
  /\ (forall f change, Invoke f change ∉ r.2).

Definition close_semantics_for_both_paths : Prop :=
  forall c : Client,
    entered_Closed c (handleClose c) /\ entered_Closed c (close c).1.

(** An operation validates the tag of its response, as the specification
    words it: an [error] response fails with the server's text, and a
    response with any tag but the expected one fails with "Unexpected
    response". *)
Definition validates_response_tag {A : Type} (expected : string)
    (resume : Settled (ServerMessage unknown) -> Completion A) : Prop :=
  forall resp : ServerMessage unknown,
    (forall id text, resp = S_error id text ->
                     resume (Fulfilled resp) = Throw (Error text))
    /\ (type_ resp <> "error" -> type_ resp <> expected ->
        resume (Fulfilled resp) = Throw (Error "Unexpected response")).

(** An effect that settles the promise [connectSocket] returned. *)
Definition settles_connect (ef : @Effect unknown) : Prop :=
  match ef with
  | ResolveConnect _ | RejectConnect _ _ => True
  | _ => False
  end.

(** An effect that fulfils a pending request. *)
Definition fulfils_request (ef : @Effect unknown) : Prop :=
  match ef with
  | Resolve _ _ => True
  | _ => False
  end.

(** The bytes a sequence of socket events delivers, and whether it is
    free of [error] events. *)
Fixpoint received (evs : list SocketEvent) : Z :=
  match evs with
  | [] => 0
  | on_data data :: evs' => len data + received evs'
  | _ :: evs' => received evs'
  end.

Fixpoint error_free (evs : list SocketEvent) : bool :=
  match evs with
  | [] => true
  | on_error _ :: _ => false
  | _ :: evs' => error_free evs'
  end.

(** The [..._resume] functions of the operations that expect a [result]. *)
Definition result_operations
  : list (Settled (ServerMessage unknown) -> Completion unknown) :=
  [query_resume; queryRaw_resume; insert_resume; update_resume;
   delete_resume; listCollections_resume].

End AsStated.

(** ** Example sessions *)

Module Examples.

Import Tcp.

(** Stand-ins for the serialisers in the closed examples below, none of
    which depends on what a serialiser returns: document data is a number,
    encoders write nothing and decoders reject their input. *)
#[export] Instance stand_in : Serialisers Z := {|
  pack := fun _ => [];
  unpack := fun _ => Throw (Error "Unexpected end of MessagePack data");
  JSON_stringify := fun _ => EmptyString;
  JSON_parse := fun _ => Throw (Error "Unexpected end of JSON input");
  TextEncoder_encode := fun _ => [];
  TextDecoder_decode := fun _ => EmptyString
|}.

Definition default_options : TcpConnectOptions :=
  {| host := "localhost"; port := 8082; authToken := EmptyString;
     useMessagePack := true; jsonFallback := true |}.

Definition request (n : nat) : PendingRequest :=
  {| resolve := request_promise n; reject := request_promise n |}.

(** A client in the Ready state, its field [socket] set, with requests
    "3" and "4" outstanding, one subscription "2", and [buffer]
    received. *)
Definition ready_client (buffer : Uint8Array) : Client :=
  {| socket := Some BunConnectPromise;
     options := default_options;
     sessionId := Some "550e8400-e29b-41d4-a716-446655440000"%string;
     encoding := MessagePack;
     pending := [("3"%string, request 3); ("4"%string, request 4)];
     subscriptions := {[ "2"%string := {| callback := user_function 2 |} ]};
     requestId := 4;
     readBuffer := buffer;
     handshakeResolve := Some (connect_promise 0);
     handshakeReject := Some (connect_promise 0);
     handshakeCompleted := true |}.

(** The handshake response of a server that accepts: status Success,
    version 1, MessagePack, and a session id of sixteen zero bytes. *)
Definition success_response : Uint8Array :=
  [x00; x01; x01] ++ replicate 16 x00.

(** A header that declares a length of 2^32 - 1, and one that declares a
    length of zero. *)
Definition oversized_header : Uint8Array :=
  [xff; xff; xff; xff; x02; x01].

Definition zero_length_header : Uint8Array :=
  [x00; x00; x00; x00; x02; x02; x00; x00].

End Examples.

(** ** Further vocabulary for the properties of the session *)

Section MoreVocabulary.

Context {unknown : Type} `{!Serialisers unknown}.

Import Tcp.

(** The effects of reading: a request fulfilled, a callback invoked, a
    line on the console. *)
Definition inbound_effect (ef : @Effect unknown) : Prop :=
  match ef with
  | Resolve _ _ | Invoke _ _ | ConsoleError _ => True
  | _ => False
  end.


(** The buffer starts with a header whose frame is not yet complete. *)
Definition frame_incomplete (c : Client) : Prop :=
  6 <= len (readBuffer c)
  /\ len (readBuffer c) < 4 + getUint32 (readBuffer c) 0.

(** What a run of [processFrames] from [c] to [c'] with effects [out] may
    change, and where it may stop. *)
Definition footprint (c c' : Client) (out : list (@Effect unknown)) : Prop :=
  socket c' = socket c /\ options c' = options c
  /\ sessionId c' = sessionId c /\ encoding c' = encoding c
  /\ subscriptions c' = subscriptions c /\ requestId c' = requestId c
  /\ handshakeResolve c' = handshakeResolve c
  /\ handshakeReject c' = handshakeReject c
  /\ handshakeCompleted c' = handshakeCompleted c
  /\ (exists n, readBuffer c' = drop n (readBuffer c))
  /\ (forall k v, JsMap.get (pending c') k = Some v ->
                  JsMap.get (pending c) k = Some v)
  /\ (forall ef, ef ∈ out -> inbound_effect ef)
  /\ (len (readBuffer c') < 6 \/ header_oversized c' \/ frame_incomplete c').

End MoreVocabulary.

(** ** The client as its users and its socket drive it *)

Module Api.

Import Tcp.

Section Api.

Context {unknown : Type} `{!Serialisers unknown}.

(** What can happen to a client object from outside: a call of one of its
    public methods (with the promise the call returns, where it sends a
    request), the resumption of a [subscribe] whose request has settled,
    and an event of its socket. *)
Inductive Call : Type :=
| call_query (q : string) (p : RequestPromise)
| call_queryRaw (q : string) (p : RequestPromise)
| call_subscribe (q : string) (p : RequestPromise)
| resume_subscribe (id : string) (callback : Callback)
                   (r : Settled (ServerMessage unknown))
| call_unsubscribe (subscriptionId : string)
| call_insert (collection : string) (data : unknown) (p : RequestPromise)
| call_update (collection documentId : string) (data : unknown)
              (p : RequestPromise)
| call_delete (collection documentId : string) (p : RequestPromise)
| call_listCollections (p : RequestPromise)
| call_ping (p : RequestPromise)
| call_close
| socket_event (ev : SocketEvent).

Definition exec (c : Client) (call : Call)
  : option (Client * list (@Effect unknown)) :=
  match call with
  | call_query q p => Some (query c q p)
  | call_queryRaw q p => Some (queryRaw c q p)
  | call_subscribe q p => Some (subscribe c q p).1
  | resume_subscribe id callback r =>
      Some ((subscribe_resume c id callback r).1, [])
  | call_unsubscribe subscriptionId => Some (unsubscribe c subscriptionId).1
  | call_insert collection data p => Some (insert c collection data p)
  | call_update collection documentId data p =>
      Some (update c collection documentId data p)
  | call_delete collection documentId p =>
      Some (delete c collection documentId p)
  | call_listCollections p => Some (listCollections c p)
  | call_ping p => Some (ping c p)
  | call_close => Some (close c).1
  | socket_event ev => handle c ev
  end.

Fixpoint execAll (c : Client) (calls : list Call)
  : option (Client * list (@Effect unknown)) :=
  match calls with
  | [] => Some (c, [])
  | call :: calls' =>
      match exec c call with
      | Some (c', out) =>
          match execAll c' calls' with
          | Some (c'', out') => Some (c'', out ++ out')
          | None => None
          end
      | None => None
      end
  end.

(** [SquirrelDBTcp.connect]: the constructor, then [connectSocket]. *)
Definition connect (options : TcpConnectOptions) (p : ConnectPromise)
  : Client :=
  connectSocket (new_SquirrelDBTcp options) p.


(** Every id in the Pending Request Table has been issued by [nextId]. *)
Definition pending_ids_issued (c : Client) : Prop :=
  0 <= requestId c
  /\ forall k v, JsMap.get (pending c) k = Some v ->
                 exists n, 1 <= n <= requestId c /\ k = num n.

End Api.

End Api.

(** A decoder for the closed examples that need decoded messages: the
    one-byte payload 01 is the acknowledgement of subscription "5", the
    one-byte payload 02 a change notification for it. *)
Module TagCodec.

Definition removed : Document unit :=
  {| doc_id := "d1"; collection := "users"; data := tt;
     created_at := "t0"; updated_at := "t1" |}.

Definition decode_tag (payload : Uint8Array)
  : Completion (ServerMessage unit) :=
  match payload with
  | [x01] => Return (S_subscribed "5")
  | [x02] => Return (S_change "5" (E_delete removed))
  | _ => Throw (Error "unknown tag")
  end.

Definition serialisers : Serialisers unit := {|
  pack := fun _ => [];
  unpack := decode_tag;
  JSON_stringify := fun _ => EmptyString;
  JSON_parse := fun _ => Throw (Error "Unexpected end of JSON input");
  TextEncoder_encode := fun _ => [];
  TextDecoder_decode := fun _ => EmptyString
|}.

(** A Ready client that awaits the acknowledgement of subscription "5"
    and has received [buffer]. *)
Definition subscribing_client (buffer : Uint8Array) : Tcp.Client :=
  {| Tcp.socket := Some Tcp.BunConnectPromise;
     Tcp.options := Examples.default_options;
     Tcp.sessionId := None;
     Tcp.encoding := MessagePack;
     Tcp.pending := [("5"%string, Examples.request 5)];
     Tcp.subscriptions := ∅;
     Tcp.requestId := 5;
     Tcp.readBuffer := buffer;
     Tcp.handshakeResolve := None;
     Tcp.handshakeReject := None;
     Tcp.handshakeCompleted := true |}.

End TagCodec.
(** * Properties *)

(** ** Bytes *)

Section BytesFacts.

Import Bytes.

Lemma to_Z_range (b : byte) : 0 <= to_Z b < 256.
Proof.
  unfold to_Z. pose proof (Byte.to_N_bounded b). lia.
Qed.

Lemma to_Z_of_Z (v : Z) : to_Z (of_Z v) = v mod 256.
Proof.
  unfold to_Z, of_Z.
  assert (Hr : 0 <= v mod 256 < 256) by (apply Z.mod_pos_bound; lia).
  destruct (Byte.of_N (Z.to_N (v mod 256))) as [b|] eqn:E; simpl.
  - apply Byte.to_of_N in E. rewrite E. lia.
  - apply Byte.of_N_None_iff in E. lia.
Qed.

Lemma to_Z_of_Z_small (v : Z) : 0 <= v < 256 -> to_Z (of_Z v) = v.
Proof.
  intros Hv. rewrite to_Z_of_Z. apply Z.mod_small. exact Hv.
Qed.

Lemma len_nonneg (a : Uint8Array) : 0 <= len a.
Proof. unfold len. lia. Qed.

Lemma len_app (a b : Uint8Array) : len (a ++ b) = len a + len b.
Proof. unfold len. rewrite length_app. lia. Qed.

(** A slice between two indices inside the array. *)
Lemma slice_inside (a : Uint8Array) (i j : Z) :
  0 <= i -> i <= len a -> 0 <= j -> j <= len a ->
  slice a i j = take (Z.to_nat (j - i)) (drop (Z.to_nat i) a).
Proof.
  intros Hi Hi' Hj Hj'. unfold slice, rel_index.
  destruct (Z.ltb_spec i 0); [lia|].
  destruct (Z.ltb_spec j 0); [lia|].
  rewrite !Z.min_l by lia. reflexivity.
Qed.

Lemma slice_from_inside (a : Uint8Array) (i : Z) :
  0 <= i -> i <= len a -> slice_from a i = drop (Z.to_nat i) a.
Proof.
  intros Hi Hi'. unfold slice_from.
  rewrite slice_inside by (pose proof (len_nonneg a); lia).
  apply take_ge. rewrite length_drop. unfold len in *. lia.
Qed.

(** A slice whose end does not exceed its start is empty. *)
Lemma slice_backwards (a : Uint8Array) (i j : Z) :
  0 <= j -> j <= i -> slice a i j = [].
Proof.
  intros Hj Hji. unfold slice.
  replace (Z.to_nat _) with O; [reflexivity|].
  unfold rel_index.
  destruct (Z.ltb_spec i 0); destruct (Z.ltb_spec j 0); lia.
Qed.

(** Copying [source] over the tail of a buffer. *)
Lemma set_tail (pre tail source : Uint8Array) :
  length tail = length source ->
  Bytes.set (pre ++ tail) source (length pre) = pre ++ source.
Proof.
  intros Hlen. unfold Bytes.set. apply list_eq. intros j.
  destruct (decide (j < length pre)%nat) as [Hlt|Hge].
  - rewrite list_lookup_inserts_lt by exact Hlt.
    rewrite !lookup_app_l by exact Hlt. reflexivity.
  - destruct (decide (j < length pre + length source)%nat) as [Hin|Hout].
    + rewrite list_lookup_inserts
        by (rewrite ?length_app; lia).
      rewrite lookup_app_r by lia. reflexivity.
    + rewrite list_lookup_inserts_ge by lia.
      rewrite !lookup_app_r by lia.
      rewrite !lookup_ge_None_2 by lia. reflexivity.
Qed.

(** Reading back a big-endian 32-bit number. *)
Lemma be32_value (w : Z) :
  0 <= w < 2 ^ 32 ->
  (w / 2 ^ 24) mod 256 * 2 ^ 24 + (w / 2 ^ 16) mod 256 * 2 ^ 16
  + (w / 2 ^ 8) mod 256 * 2 ^ 8 + w mod 256 = w.
Proof.
  intros Hw.
  change (2 ^ 32) with 4294967296 in Hw.
  change (2 ^ 24) with 16777216. change (2 ^ 16) with 65536.
  change (2 ^ 8) with 256.
  Z.div_mod_to_equations. lia.
Qed.

Lemma getUint32_bytes (b0 b1 b2 b3 : byte) (rest : Uint8Array) :
  getUint32 (b0 :: b1 :: b2 :: b3 :: rest) 0
  = to_Z b0 * 2 ^ 24 + to_Z b1 * 2 ^ 16 + to_Z b2 * 2 ^ 8 + to_Z b3.
Proof. reflexivity. Qed.

Lemma getUint32_range (a : Uint8Array) :
  0 <= getUint32 a 0 < 2 ^ 32.
Proof.
  unfold getUint32, at_.
  pose proof (to_Z_range (nth 0 a x00)).
  pose proof (to_Z_range (nth 1 a x00)).
  pose proof (to_Z_range (nth 2 a x00)).
  pose proof (to_Z_range (nth 3 a x00)).
  change (2 ^ 32) with 4294967296.
  change (2 ^ 24) with 16777216. change (2 ^ 16) with 65536.
  change (2 ^ 8) with 256. lia.
Qed.

End BytesFacts.

(** ** Framing codec *)

Section Framing.

Import Bytes Protocol.

(** The bytes [buildFrame] produces: the length field, the two tag
    bytes, the payload. *)
Lemma buildFrame_layout (t : MessageType) (e : Encoding)
    (payload : Uint8Array) :
  let w := (len payload + 2) mod 2 ^ 32 in
  buildFrame t e payload
  = [of_Z (w / 2 ^ 24); of_Z (w / 2 ^ 16); of_Z (w / 2 ^ 8); of_Z w;
     of_Z (MessageType_value t); of_Z (Encoding_value e)] ++ payload.
Proof.
  intros w. unfold buildFrame, alloc.
  change (replicate (6 + length payload) x00)
    with ([x00; x00; x00; x00; x00; x00]
            ++ replicate (length payload) x00).
  unfold setUint32, setUint8. fold w. cbn [app list_insert alter list_alter].
  apply (set_tail
           [of_Z (w / 2 ^ 24); of_Z (w / 2 ^ 16); of_Z (w / 2 ^ 8);
            of_Z w; of_Z (MessageType_value t); of_Z (Encoding_value e)]).
  apply length_replicate.
Qed.

Lemma MessageType_value_byte (t : MessageType) :
  to_Z (of_Z (MessageType_value t)) = MessageType_value t.
Proof. destruct t; reflexivity. Qed.

Lemma Encoding_value_byte (e : Encoding) :
  to_Z (of_Z (Encoding_value e)) = Encoding_value e.
Proof. destruct e; reflexivity. Qed.

(** What the header of a built frame parses to, whatever the payload
    length: the length field holds the length plus two modulo 2^32. *)
Lemma parseFrameHeader_buildFrame (t : MessageType) (e : Encoding)
    (payload : Uint8Array) :
  parseFrameHeader (buildFrame t e payload)
  = Return {| payloadLength := (len payload + 2) mod 2 ^ 32 - 2;
              msgType := MessageType_value t;
              Protocol.encoding := Encoding_value e |}.
Proof.
  rewrite buildFrame_layout. cbv zeta.
  set (w := (len payload + 2) mod 2 ^ 32).
  assert (Hw : 0 <= w < 2 ^ 32) by (apply Z.mod_pos_bound; lia).
  unfold parseFrameHeader.
  destruct (Z.ltb_spec (len ([of_Z (w / 2 ^ 24); of_Z (w / 2 ^ 16);
                              of_Z (w / 2 ^ 8); of_Z w;
                              of_Z (MessageType_value t);
                              of_Z (Encoding_value e)] ++ payload)) 6)
    as [Hshort|_].
  { rewrite len_app in Hshort. pose proof (len_nonneg payload).
    unfold len in Hshort at 1. simpl in Hshort. lia. }
  cbn [app]. rewrite getUint32_bytes.
  rewrite !to_Z_of_Z, be32_value by exact Hw.
  unfold at_. cbn [nth].
  rewrite MessageType_value_byte, Encoding_value_byte. reflexivity.
Qed.

End Framing.

(** Flag round-trip, UUID rendering and the layouts on small inputs. *)
Lemma byteToFlags_flagsToByte (f : ProtocolFlags) :
  byteToFlags (flagsToByte f) = f.
Proof. destruct f as [[] []]; reflexivity. Qed.

Example uuid_rendering :
  uuidToString [x55; x0e; x84; x00; xe2; x9b; x41; xd4;
                xa7; x16; x44; x66; x55; x44; x00; x00]
  = "550e8400-e29b-41d4-a716-446655440000"%string.
Proof. vm_compute. reflexivity. Qed.

Example frame_example :
  buildFrame Request Json [x7b; x7d]
  = [x00; x00; x00; x04; x01; x02; x7b; x7d].
Proof. vm_compute. reflexivity. Qed.

Example header_example :
  parseFrameHeader [x00; x00; x00; x04; x01; x02; x7b; x7d]
  = Return {| payloadLength := 2; msgType := 1; Protocol.encoding := 2 |}.
Proof. vm_compute. reflexivity. Qed.

Example too_short_example :
  parseHandshakeResponse [x00; x01]
  = Throw (Error "Handshake response too short: 2 bytes").
Proof. vm_compute. reflexivity. Qed.

(** C5 (as amended). Frame round-trip: for every message type, every
    encoding and every payload of at most 2^32 - 3 bytes, so that the
    payload length plus two fits the 4-byte length field, parsing the header
    of the built frame yields the original message type, the original
    encoding and a [payloadLength] equal to the payload's length; the
    big-endian length field of the frame is the payload length plus two,
    and the payload is stored verbatim at offset 6. *)
Theorem frame_roundtrip (t : MessageType) (e : Encoding)
    (payload : Uint8Array) :
  len payload + 2 < 2 ^ 32 ->
  parseFrameHeader (buildFrame t e payload)
  = Return {| payloadLength := len payload;
              msgType := MessageType_value t;
              Protocol.encoding := Encoding_value e |}
  /\ getUint32 (buildFrame t e payload) 0 = len payload + 2
  /\ len (buildFrame t e payload) = 6 + len payload
  /\ slice (buildFrame t e payload) 6 (6 + len payload) = payload.
Proof.
  intros Hfit. pose proof (len_nonneg payload) as Hpos.
  assert (Hw' : 0 <= len payload + 2 < 2 ^ 32) by (split; lia).
  assert (Hw : (len payload + 2) mod 2 ^ 32 = len payload + 2)
    by (apply Z.mod_small; exact Hw').
  split; [|split; [|split]].
  - rewrite parseFrameHeader_buildFrame, Hw. f_equal. f_equal. lia.
  - rewrite buildFrame_layout. cbv zeta. rewrite Hw.
    cbn [app]. rewrite getUint32_bytes, !to_Z_of_Z.
    apply be32_value. exact Hw'.
  - rewrite buildFrame_layout. cbv zeta. rewrite len_app.
    reflexivity.
  - rewrite buildFrame_layout. cbv zeta.
    clear Hw Hw' Hfit.
    rewrite slice_inside; try lia.
    + replace (Z.to_nat (6 + len payload - 6)) with (length payload)
        by (unfold len; lia).
      change (Z.to_nat 6) with 6%nat. cbn [app skipn].
      apply firstn_all.
    + unfold len. rewrite length_app. cbn [length]. lia.
    + unfold len. rewrite length_app. cbn [length]. lia.
Qed.

Lemma frame_roundtrip_witness :
  len [x7b; x7d] + 2 < 2 ^ 32
  /\ parseFrameHeader (buildFrame Request Json [x7b; x7d])
     = Return {| payloadLength := 2; msgType := 1; Protocol.encoding := 2 |}.
Proof.
  split.
  - vm_compute. reflexivity.
  - apply (frame_roundtrip Request Json [x7b; x7d]).
    vm_compute. reflexivity.
Defined.

(** C5 (as stated) fails for a payload of 2^32 - 2 bytes: the length field
    wraps to zero and the header parses to a payload length of -2. *)
Lemma frame_roundtrip_wraps :
  let payload := replicate (Z.to_nat 4294967294) x00 in
  len payload = 4294967294
  /\ parseFrameHeader (buildFrame Request MessagePack payload)
     = Return {| payloadLength := -2; msgType := 1; Protocol.encoding := 1 |}
  /\ ~ frame_roundtrip_for_every_payload.
Proof.
  intros payload.
  assert (Hlen : len payload = 4294967294).
  { unfold len, payload. rewrite length_replicate.
    apply Z2Nat.id. lia. }
  clearbody payload.
  assert (Hparse :
    parseFrameHeader (buildFrame Request MessagePack payload)
    = Return {| payloadLength := -2; msgType := 1;
                Protocol.encoding := 1 |}).
  { rewrite parseFrameHeader_buildFrame, Hlen. reflexivity. }
  split; [exact Hlen|]. split; [exact Hparse|].
  intros Hall.
  destruct (Hall Request MessagePack payload) as (header & Hh & Hpl & _).
  rewrite Hparse in Hh. injection Hh as <-.
  cbn [payloadLength] in Hpl. rewrite Hlen in Hpl. discriminate Hpl.
Qed.

(** ** Handshake response *)

Lemma byteToFlags_bits (b : byte) :
  byteToFlags (to_Z b)
  = {| messagepack := Z.testbit (to_Z b) 0;
       Protocol.jsonFallback := Z.testbit (to_Z b) 1 |}.
Proof. destruct b; reflexivity. Qed.

(** A list of at least 19 bytes, taken apart the way the response is laid
    out. *)
Lemma handshake_layout (data : Uint8Array) :
  19 <= len data ->
  exists b0 b1 b2 sid rest,
    data = b0 :: b1 :: b2 :: sid ++ rest /\ length sid = 16%nat.
Proof.
  intros Hlen. unfold len in Hlen.
  destruct data as [|b0 [|b1 [|b2 tl]]]; cbn [length] in Hlen; try lia.
  exists b0, b1, b2, (take 16 tl), (drop 16 tl). split.
  - rewrite take_drop. reflexivity.
  - rewrite length_take. lia.
Qed.

(** C6. Parsing a handshake response fails, with the too-short condition,
    if and only if the input holds fewer than 19 bytes; for every input of
    at least 19 bytes it returns status = byte 0, version = byte 1, the
    flags read from byte 2 (bit 0: binary encoding, bit 1: text fallback)
    and sessionId = bytes 3 to 18. *)
Theorem parseHandshakeResponse_spec (data : Uint8Array) :
  ((exists e, parseHandshakeResponse data = Throw e) <-> len data < 19)
  /\ (len data < 19 ->
      parseHandshakeResponse data
      = Throw (Error ("Handshake response too short: "
                      +:+ num (len data) +:+ " bytes")))
  /\ (forall b0 b1 b2 sid rest,
        data = b0 :: b1 :: b2 :: sid ++ rest -> length sid = 16%nat ->
        parseHandshakeResponse data
        = Return {| status := to_Z b0;
                    version := to_Z b1;
                    flags := {| messagepack := Z.testbit (to_Z b2) 0;
                                Protocol.jsonFallback :=
                                  Z.testbit (to_Z b2) 1 |};
                    Protocol.sessionId := sid |})
  /\ (19 <= len data ->
      exists b0 b1 b2 sid rest,
        data = b0 :: b1 :: b2 :: sid ++ rest /\ length sid = 16%nat).
Proof.
  split; [|split; [|split]].
  - unfold parseHandshakeResponse.
    destruct (Z.ltb_spec (len data) 19) as [Hlt|Hge]; split.
    + intros _. exact Hlt.
    + intros _. eexists. reflexivity.
    + intros [e He]. discriminate He.
    + intros Hlt. lia.
  - intros Hlt. unfold parseHandshakeResponse.
    destruct (Z.ltb_spec (len data) 19) as [_|Hge]; [reflexivity|lia].
  - intros b0 b1 b2 sid rest -> Hsid. unfold parseHandshakeResponse.
    assert (Hlen : len (b0 :: b1 :: b2 :: sid ++ rest)
                   = 19 + len rest).
    { unfold len. cbn [length]. rewrite length_app. lia. }
    pose proof (len_nonneg rest) as Hrest.
    destruct (Z.ltb_spec (len (b0 :: b1 :: b2 :: sid ++ rest)) 19)
      as [Hlt|_]; [lia|].
    rewrite slice_inside by lia.
    unfold at_. cbn [nth]. rewrite byteToFlags_bits.
    change (Z.to_nat 3) with 3%nat. change (Z.to_nat (19 - 3)) with 16%nat.
    cbn [skipn]. rewrite drop_0.
    rewrite (take_app_length' sid rest 16) by (symmetry; exact Hsid).
    reflexivity.
  - apply handshake_layout.
Qed.

Lemma parseHandshakeResponse_spec_witness :
  parseHandshakeResponse
    [x00; x01; x03; x42; x42; x42; x42; x42; x42; x42; x42;
     x42; x42; x42; x42; x42; x42; x42; x42]
  = Return {| status := 0; version := 1;
              flags := {| messagepack := true;
                          Protocol.jsonFallback := true |};
              Protocol.sessionId :=
                [x42; x42; x42; x42; x42; x42; x42; x42;
                 x42; x42; x42; x42; x42; x42; x42; x42] |}
  /\ parseHandshakeResponse [x00; x01]
     = Throw (Error "Handshake response too short: 2 bytes").
Proof.
  split.
  - apply (proj1 (proj2 (proj2 (parseHandshakeResponse_spec _)))
             x00 x01 x03
             [x42; x42; x42; x42; x42; x42; x42; x42;
              x42; x42; x42; x42; x42; x42; x42; x42] []);
      reflexivity.
  - apply (proj1 (proj2 (parseHandshakeResponse_spec [x00; x01]))).
    vm_compute. reflexivity.
Defined.

(** ** The pending-request table *)

Section JsMapFacts.

Context {V : Type}.

Implicit Types (m : JsMap.t V) (k : string) (v : V).

Lemma get_delete_eq m k : JsMap.get (JsMap.delete m k) k = None.
Proof.
  induction m as [|[k' v'] m IH]; cbn [JsMap.delete JsMap.get].
  - reflexivity.
  - destruct (decide (k' = k)) as [->|Hne]; [exact IH|].
    cbn [JsMap.get]. destruct (decide (k' = k)); [contradiction|exact IH].
Qed.

Lemma get_delete_ne m k k' :
  k <> k' -> JsMap.get (JsMap.delete m k) k' = JsMap.get m k'.
Proof.
  intros Hne. induction m as [|[k0 v0] m IH]; cbn [JsMap.delete JsMap.get].
  - reflexivity.
  - destruct (decide (k0 = k)) as [->|Hk].
    + destruct (decide (k = k')); [contradiction|exact IH].
    + cbn [JsMap.get]. rewrite IH. reflexivity.
Qed.

Lemma delete_absent m k : JsMap.get m k = None -> JsMap.delete m k = m.
Proof.
  induction m as [|[k' v'] m IH]; cbn [JsMap.delete JsMap.get].
  - reflexivity.
  - destruct (decide (k' = k)); [discriminate|].
    intros Hm. rewrite IH by exact Hm. reflexivity.
Qed.

Lemma get_set_eq m k v : JsMap.get (JsMap.set m k v) k = Some v.
Proof.
  induction m as [|[k' v'] m IH]; cbn [JsMap.set JsMap.get].
  - destruct (decide (k = k)); [reflexivity|contradiction].
  - destruct (decide (k' = k)) as [->|Hne]; cbn [JsMap.get].
    + destruct (decide (k = k)); [reflexivity|contradiction].
    + destruct (decide (k' = k)); [contradiction|exact IH].
Qed.

Lemma get_set_ne m k k' v :
  k <> k' -> JsMap.get (JsMap.set m k v) k' = JsMap.get m k'.
Proof.
  intros Hne. induction m as [|[k0 v0] m IH]; cbn [JsMap.set JsMap.get].
  - destruct (decide (k = k')); [contradiction|reflexivity].
  - destruct (decide (k0 = k)) as [->|Hk]; cbn [JsMap.get].
    + destruct (decide (k = k')); [contradiction|reflexivity].
    + rewrite IH. reflexivity.
Qed.

Lemma get_Some_elem m k v : JsMap.get m k = Some v -> (k, v) ∈ m.
Proof.
  induction m as [|[k' v'] m IH]; cbn [JsMap.get]; [discriminate|].
  destruct (decide (k' = k)) as [->|Hne].
  - intros [= ->]. apply list_elem_of_here.
  - intros Hm. apply list_elem_of_further, IH, Hm.
Qed.

End JsMapFacts.

(** ** The wire session *)

Section SessionFacts.

Context {unknown : Type} `{!Serialisers unknown}.

Import Tcp.

Implicit Types (c : Client) (msg : ServerMessage unknown).

(** The fields [dispatchMessage] can change: only the pending table. *)
Lemma dispatchMessage_frame c msg :
  let c' := (dispatchMessage c msg).1 in
  socket c' = socket c /\ options c' = options c
  /\ sessionId c' = sessionId c /\ encoding c' = encoding c
  /\ subscriptions c' = subscriptions c /\ requestId c' = requestId c
  /\ readBuffer c' = readBuffer c
  /\ handshakeResolve c' = handshakeResolve c
  /\ handshakeReject c' = handshakeReject c
  /\ handshakeCompleted c' = handshakeCompleted c.
Proof.
  unfold dispatchMessage.
  destruct msg; cbn [id_];
    repeat match goal with
           | |- context [match ?x with _ => _ end] => destruct x
           end;
    cbn; repeat split; reflexivity.
Qed.

Lemma dispatchMessage_readBuffer c msg c' out :
  dispatchMessage c msg = (c', out) -> readBuffer c' = readBuffer c.
Proof.
  intros Hd. pose proof (dispatchMessage_frame c msg) as Hf.
  rewrite Hd in Hf. cbn in Hf. tauto.
Qed.

(** A pass of the loop that goes round again has taken [4 + length field]
    bytes off the front of the buffer, and that many were there. *)
Lemma processFrames_body_Again c c' out :
  6 <= len (readBuffer c) ->
  processFrames_body c = Again c' out ->
  let total := 4 + getUint32 (readBuffer c) 0 in
  total <= len (readBuffer c)
  /\ readBuffer c' = drop (Z.to_nat total) (readBuffer c).
Proof.
  intros Hlen Hbody total.
  pose proof (getUint32_range (readBuffer c)) as Hrange.
  unfold processFrames_body, parseFrameHeader in Hbody.
  destruct (Z.ltb_spec (len (readBuffer c)) 6) as [?|_]; [lia|].
  cbn [payloadLength Protocol.encoding] in Hbody.
  destruct (getUint32 (readBuffer c) 0 - 2 >? MAX_MESSAGE_SIZE);
    [discriminate|].
  replace (6 + (getUint32 (readBuffer c) 0 - 2)) with total in Hbody
    by (unfold total; lia).
  destruct (Z.ltb_spec (len (readBuffer c)) total) as [?|Hfits];
    [discriminate|].
  split; [exact Hfits|].
  assert (Hbuf : readBuffer (set_readBuffer
                               (slice_from (readBuffer c) total) c)
                 = drop (Z.to_nat total) (readBuffer c)).
  { cbn [readBuffer set_readBuffer].
    apply slice_from_inside; unfold total; lia. }
  destruct (decodeMessage _ _) as [msg|e].
  - destruct (dispatchMessage _ msg) as [c1 out1] eqn:Hd.
    injection Hbody as <- <-.
    apply dispatchMessage_readBuffer in Hd. rewrite Hd. exact Hbuf.
  - injection Hbody as <- <-. exact Hbuf.
Qed.

Lemma processFrames_body_shrinks c c' out :
  6 <= len (readBuffer c) ->
  processFrames_body c = Again c' out ->
  (length (readBuffer c') < length (readBuffer c))%nat.
Proof.
  intros Hlen Hbody.
  destruct (processFrames_body_Again c c' out Hlen Hbody) as [Hfits ->].
  pose proof (getUint32_range (readBuffer c)) as Hrange.
  rewrite length_drop. unfold len in *. lia.
Qed.

(** The loop returns as soon as it has more passes than the buffer has
    bytes. *)
Lemma processFrames_loop_returns (fuel : nat) c :
  (length (readBuffer c) < fuel)%nat ->
  exists r, processFrames_loop fuel c = Some r.
Proof.
  revert c. induction fuel as [|fuel IH]; intros c Hfuel; [lia|].
  cbn [processFrames_loop].
  destruct (Z.geb_spec (len (readBuffer c)) 6) as [Hlen|_];
    [|eexists; reflexivity].
  destruct (processFrames_body c) as [c' out|c' out] eqn:Hbody;
    [eexists; reflexivity|].
  pose proof (processFrames_body_shrinks c c' out ltac:(lia) Hbody).
  destruct (IH c' ltac:(lia)) as [[c'' out'] ->].
  eexists. reflexivity.
Qed.

(** More passes than needed change nothing. *)
Lemma processFrames_loop_more (fuel fuel' : nat) c r :
  processFrames_loop fuel c = Some r -> (fuel <= fuel')%nat ->
  processFrames_loop fuel' c = Some r.
Proof.
  revert fuel' c r. induction fuel as [|fuel IH]; intros fuel' c r Hr Hle;
    [discriminate|].
  destruct fuel' as [|fuel']; [lia|].
  cbn [processFrames_loop] in *.
  destruct (len (readBuffer c) >=? 6); [|exact Hr].
  destruct (processFrames_body c) as [c' out|c' out]; [exact Hr|].
  destruct (processFrames_loop fuel c') as [[c'' out']|] eqn:Hloop;
    [|discriminate].
  rewrite (IH fuel' c' _ Hloop) by lia. exact Hr.
Qed.

(** [processFrames] always returns. *)
Lemma processFrames_returns c : exists r, processFrames c = Some r.
Proof.
  apply processFrames_loop_returns. lia.
Qed.

(** [processFrames], one pass at a time. *)
Lemma processFrames_unfold c :
  processFrames c
  = if len (readBuffer c) >=? 6 then
      match processFrames_body c with
      | Leave c' out => Some (c', out)
      | Again c' out =>
          match processFrames c' with
          | Some (c'', out') => Some (c'', out ++ out')
          | None => None
          end
      end
    else Some (c, []).
Proof.
  unfold processFrames at 1. cbn [processFrames_loop].
  destruct (Z.geb_spec (len (readBuffer c)) 6) as [Hlen|_]; [|reflexivity].
  destruct (processFrames_body c) as [c' out|c' out] eqn:Hbody;
    [reflexivity|].
  pose proof (processFrames_body_shrinks c c' out ltac:(lia) Hbody) as Hlt.
  destruct (processFrames_returns c') as [r Hr].
  rewrite Hr.
  rewrite (processFrames_loop_more _ (length (readBuffer c)) c' r Hr)
    by lia.
  reflexivity.
Qed.

End SessionFacts.

(** ** Oversized and undersized length fields *)

Section LengthField.

Context {unknown : Type} `{!Serialisers unknown}.

Import Tcp.

Implicit Types (c : Client).

Lemma getUint32_app (a b : Uint8Array) :
  4 <= len a -> getUint32 (a ++ b) 0 = getUint32 a 0.
Proof.
  intros Hlen. unfold len in Hlen. unfold getUint32, at_.
  rewrite !app_nth1 by lia. reflexivity.
Qed.

Lemma header_oversized_inv c :
  header_oversized c ->
  6 <= len (readBuffer c)
  /\ getUint32 (readBuffer c) 0 - 2 > MAX_MESSAGE_SIZE.
Proof.
  intros (header & Hparse & Hbig). unfold parseFrameHeader in Hparse.
  destruct (Z.ltb_spec (len (readBuffer c)) 6) as [?|Hlen];
    [discriminate|].
  injection Hparse as <-. cbn [payloadLength] in Hbig. split; assumption.
Qed.

(** The pass of the loop that meets an oversized header. *)
Lemma processFrames_body_oversized c :
  6 <= len (readBuffer c) ->
  getUint32 (readBuffer c) 0 - 2 > MAX_MESSAGE_SIZE ->
  processFrames_body c
  = Leave c [ConsoleError
               ["Message too large: "
                +:+ num (getUint32 (readBuffer c) 0 - 2)]].
Proof.
  intros Hlen Hbig. unfold processFrames_body, parseFrameHeader.
  destruct (Z.ltb_spec (len (readBuffer c)) 6) as [?|_]; [lia|].
  cbn [payloadLength].
  destruct (Z.gtb_spec (getUint32 (readBuffer c) 0 - 2) MAX_MESSAGE_SIZE)
    as [_|?]; [reflexivity|lia].
Qed.

(** A chunk that arrives while an oversized header is at the front of the
    buffer is appended behind it, and the guard reports again. *)
Lemma handleData_oversized c (data : Uint8Array) :
  handshakeCompleted c = true ->
  6 <= len (readBuffer c) ->
  getUint32 (readBuffer c) 0 - 2 > MAX_MESSAGE_SIZE ->
  handleData c data
  = Some (set_readBuffer (readBuffer c ++ data) c,
          [ConsoleError
             ["Message too large: "
              +:+ num (getUint32 (readBuffer c) 0 - 2)]]).
Proof.
  intros Hready Hlen Hbig. unfold handleData.
  cbn [handshakeCompleted set_readBuffer]. rewrite Hready. cbn [negb].
  rewrite processFrames_unfold. cbn [readBuffer set_readBuffer].
  pose proof (len_nonneg data) as Hdata.
  destruct (Z.geb_spec (len (readBuffer c ++ data)) 6) as [_|Hshort];
    [|rewrite len_app in Hshort; lia].
  rewrite processFrames_body_oversized;
    cbn [readBuffer set_readBuffer];
    rewrite ?getUint32_app by lia; try assumption.
  - reflexivity.
  - rewrite len_app. lia.
Qed.

Lemma run_oversized (chunks : list Uint8Array) c :
  handshakeCompleted c = true ->
  6 <= len (readBuffer c) ->
  getUint32 (readBuffer c) 0 - 2 > MAX_MESSAGE_SIZE ->
  run c (map on_data chunks)
  = Some (set_readBuffer (readBuffer c ++ concat chunks) c,
          map (fun _ =>
                 ConsoleError
                   ["Message too large: "
                    +:+ num (getUint32 (readBuffer c) 0 - 2)])
              chunks).
Proof.
  revert c. induction chunks as [|data chunks IH]; intros c Hready Hlen Hbig.
  - cbn [map run concat]. rewrite app_nil_r. destruct c; reflexivity.
  - cbn [map run handle concat].
    rewrite handleData_oversized by assumption.
    pose proof (len_nonneg data) as Hdata.
    rewrite IH; cbn [readBuffer handshakeCompleted set_readBuffer];
      rewrite ?getUint32_app by lia; try assumption.
    + rewrite <- app_assoc. reflexivity.
    + rewrite len_app. lia.
Qed.

(** C1 (as amended). In the Ready state, when the next frame header in the
    buffer declares a payload of more than 16 MiB, frame processing logs
    "Message too large" and returns at once: no byte is consumed, nothing
    is dispatched, the connection is not closed and no pending request is
    failed, so the client is left exactly as it was. Every chunk that
    arrives afterwards is appended behind the oversized header and meets
    the same guard, so no later frame is dispatched either. *)
Theorem oversized_frame_stalls c :
  handshakeCompleted c = true ->
  header_oversized c ->
  let report :=
    @ConsoleError unknown
      ["Message too large: " +:+ num (getUint32 (readBuffer c) 0 - 2)] in
  processFrames c = Some (c, [report])
  /\ forall chunks : list Uint8Array,
       run c (map on_data chunks)
       = Some (set_readBuffer (readBuffer c ++ concat chunks) c,
               map (fun _ => report) chunks).
Proof.
  intros Hready Hover report.
  destruct (header_oversized_inv c Hover) as [Hlen Hbig].
  split.
  - rewrite processFrames_unfold.
    destruct (Z.geb_spec (len (readBuffer c)) 6) as [_|?]; [|lia].
    rewrite processFrames_body_oversized by assumption. reflexivity.
  - intros chunks. apply run_oversized; assumption.
Qed.

(** C8. [parseFrameHeader] puts no lower bound on the length field: for an
    input of at least 6 bytes whose length field is below 2 it returns the
    negative payload length [length - 2]; the pass of the frame-processing
    loop that meets such a header hands an empty payload to the decoder,
    takes only [4 + length] bytes, which is 4 or 5 and fewer than the 6
    bytes of the header, off the buffer and goes round again from there. *)
Theorem short_length_field_desynchronises c :
  6 <= len (readBuffer c) ->
  getUint32 (readBuffer c) 0 < 2 ->
  let length_ := getUint32 (readBuffer c) 0 in
  parseFrameHeader (readBuffer c)
  = Return {| payloadLength := length_ - 2;
              msgType := at_ (readBuffer c) 4;
              Protocol.encoding := at_ (readBuffer c) 5 |}
  /\ length_ - 2 < 0
  /\ 4 <= 4 + length_ < 6
  /\ exists c' out,
       processFrames_body c = Again c' out
       /\ readBuffer c' = drop (Z.to_nat (4 + length_)) (readBuffer c)
       /\ out = match decodeMessage [] (at_ (readBuffer c) 5) with
                | Return msg =>
                    (dispatchMessage
                       (set_readBuffer
                          (drop (Z.to_nat (4 + length_)) (readBuffer c)) c)
                       msg).2
                | Throw e =>
                    [ConsoleError ["Failed to decode message:"; message e]]
                end
       /\ processFrames c
          = match processFrames c' with
            | Some (c'', out') => Some (c'', out ++ out')
            | None => None
            end.
Proof.
  intros Hlen Hsmall length_.
  pose proof (getUint32_range (readBuffer c)) as Hrange.
  assert (Hparse :
    parseFrameHeader (readBuffer c)
    = Return {| payloadLength := length_ - 2;
                msgType := at_ (readBuffer c) 4;
                Protocol.encoding := at_ (readBuffer c) 5 |}).
  { unfold parseFrameHeader.
    destruct (Z.ltb_spec (len (readBuffer c)) 6) as [?|_]; [lia|].
    reflexivity. }
  split; [exact Hparse|]. split; [unfold length_; lia|].
  split; [unfold length_; lia|].
  assert (Hbody : exists c' out,
    processFrames_body c = Again c' out
    /\ out = match decodeMessage [] (at_ (readBuffer c) 5) with
             | Return msg =>
                 (dispatchMessage
                    (set_readBuffer
                       (drop (Z.to_nat (4 + length_)) (readBuffer c)) c)
                    msg).2
             | Throw e =>
                 [ConsoleError ["Failed to decode message:"; message e]]
             end).
  { unfold processFrames_body. rewrite Hparse.
    cbn [payloadLength Protocol.encoding].
    destruct (Z.gtb_spec (length_ - 2) MAX_MESSAGE_SIZE) as [Hbig|_].
    { unfold MAX_MESSAGE_SIZE, length_ in Hbig. lia. }
    destruct (Z.ltb_spec (len (readBuffer c)) (6 + (length_ - 2)))
      as [Hwait|_].
    { unfold length_ in Hwait. lia. }
    rewrite slice_backwards by (unfold length_; lia).
    rewrite slice_from_inside by (unfold length_; lia).
    replace (6 + (length_ - 2)) with (4 + length_) by lia.
    destruct (decodeMessage [] (at_ (readBuffer c) 5)) as [msg|e].
    - destruct (dispatchMessage _ msg) as [c1 out1].
      exists c1, out1. split; reflexivity.
    - eexists _, _. split; reflexivity. }
  destruct Hbody as (c' & out & Hbody & Hout).
  exists c', out. split; [exact Hbody|].
  split; [exact (proj2 (processFrames_body_Again c c' out Hlen Hbody))|].
  split; [exact Hout|].
  rewrite (processFrames_unfold c).
  destruct (Z.geb_spec (len (readBuffer c)) 6) as [_|?]; [|lia].
  rewrite Hbody. reflexivity.
Qed.

End LengthField.

Import Examples.

Lemma oversized_frame_stalls_witness :
  let c := Examples.ready_client Examples.oversized_header in
  Tcp.processFrames c
  = Some (c, [Tcp.ConsoleError ["Message too large: 4294967293"%string]]).
Proof.
  intros c.
  refine (proj1 (oversized_frame_stalls (unknown := Z) c _ _)).
  - reflexivity.
  - eexists. split; [reflexivity|]. vm_compute. reflexivity.
Defined.

(** C1 (as stated) fails: a Ready client with two requests outstanding
    that meets a header declaring 2^32 - 3 payload bytes only logs the
    length. Its socket stays open and both requests stay pending. (No
    serialiser is called on the way.) *)
Lemma oversized_frame_not_fatal :
  let c := Examples.ready_client Examples.oversized_header in
  Tcp.handshakeCompleted c = true
  /\ header_oversized c
  /\ Tcp.processFrames c
     = Some (c, [Tcp.ConsoleError ["Message too large: 4294967293"%string]])
  /\ Tcp.socket c = Some Tcp.BunConnectPromise
  /\ Tcp.pending c
     = [("3"%string, Examples.request 3); ("4"%string, Examples.request 4)]
  /\ ~ session_terminated c (Tcp.processFrames c)
  /\ ~ oversized_frame_is_fatal.
Proof.
  intros c.
  assert (Hover : header_oversized c).
  { eexists. split; [reflexivity|]. vm_compute. reflexivity. }
  assert (Hrun : Tcp.processFrames c
                 = Some (c, [Tcp.ConsoleError
                               ["Message too large: 4294967293"%string]])).
  { vm_compute. reflexivity. }
  assert (Hnot : ~ session_terminated c (Tcp.processFrames c)).
  { intros (c' & out & Hr & Hsock & _). rewrite Hrun in Hr.
    injection Hr as <- <-. discriminate Hsock. }
  repeat split; try assumption; try reflexivity.
  intros Hfatal. exact (Hnot (Hfatal c eq_refl Hover)).
Qed.

Lemma short_length_field_desynchronises_witness :
  let c := Examples.ready_client Examples.zero_length_header in
  exists c' out,
    Tcp.processFrames_body c = Tcp.Again c' out
    /\ Tcp.readBuffer c' = [x02; x02; x00; x00].
Proof.
  intros c.
  destruct (short_length_field_desynchronises (unknown := Z) c)
    as (_ & _ & _ & c' & out & Hbody & Hbuf & _).
  - vm_compute. discriminate.
  - vm_compute. reflexivity.
  - exists c', out. split; [exact Hbody|exact Hbuf].
Defined.

(** ** Dispatch and unsubscribe *)

Section Dispatch.

Context {unknown : Type} `{!Serialisers unknown}.

Import Tcp.

Implicit Types (c : Client) (msg : ServerMessage unknown).

Lemma not_change_inv msg :
  type_ msg <> "change"%string -> forall id change, msg <> S_change id change.
Proof. intros Htag id change ->. apply Htag. reflexivity. Qed.

(** Dispatching a message that is no change notification. *)
Lemma dispatchMessage_response c msg :
  type_ msg <> "change"%string ->
  dispatchMessage c msg
  = match JsMap.get (pending c) (id_ msg) with
    | Some p => (set_pending (JsMap.delete (pending c) (id_ msg)) c,
                 [Resolve (resolve p) msg])
    | None => (c, [])
    end.
Proof.
  intros Htag. destruct msg; try reflexivity.
  exfalso. apply Htag. reflexivity.
Qed.

(** C4. Dispatch routes by table, once. A [change] message goes to the
    callback the Subscription Table holds for its id, and is dropped when
    there is none. Any other message whose id is in the Pending Request
    Table removes that entry and fulfils it, once; a message whose id has
    no entry is dropped, leaving the client as it was. After a request has
    been fulfilled, whatever message arrives with the same id fulfils
    nothing and changes neither table, and unless it is a change
    notification it is dropped. *)
Theorem dispatch_routing c msg :
  (forall id change sub,
     msg = S_change id change -> subscriptions c !! id = Some sub ->
     dispatchMessage c msg = (c, [Invoke (callback sub) change]))
  /\ (forall id change,
        msg = S_change id change -> subscriptions c !! id = None ->
        dispatchMessage c msg = (c, []))
  /\ (type_ msg <> "change"%string ->
      JsMap.get (pending c) (id_ msg) = None ->
      dispatchMessage c msg = (c, []))
  /\ (forall p,
        type_ msg <> "change"%string ->
        JsMap.get (pending c) (id_ msg) = Some p ->
        let c' := set_pending (JsMap.delete (pending c) (id_ msg)) c in
        dispatchMessage c msg = (c', [Resolve (resolve p) msg])
        /\ JsMap.get (pending c') (id_ msg) = None
        /\ (forall k, k <> id_ msg ->
                      JsMap.get (pending c') k = JsMap.get (pending c) k)
        /\ subscriptions c' = subscriptions c
        /\ forall msg',
             id_ msg' = id_ msg ->
             exists out',
               dispatchMessage c' msg' = (c', out')
               /\ (forall ef, ef ∈ out' -> ~ fulfils_request ef)
               /\ (type_ msg' <> "change"%string -> out' = [])).
Proof.
  split; [|split; [|split]].
  - intros id change sub -> Hsub. cbn [dispatchMessage]. rewrite Hsub.
    reflexivity.
  - intros id change -> Hsub. cbn [dispatchMessage]. rewrite Hsub.
    reflexivity.
  - intros Htag Hnone. rewrite dispatchMessage_response by exact Htag.
    rewrite Hnone. reflexivity.
  - intros p Htag Hsome c'.
    assert (Hgone : JsMap.get (pending c') (id_ msg) = None)
      by apply get_delete_eq.
    split; [|split; [|split; [|split]]].
    + rewrite dispatchMessage_response by exact Htag.
      rewrite Hsome. reflexivity.
    + exact Hgone.
    + intros k Hk. cbn [c' pending set_pending].
      apply get_delete_ne. congruence.
    + reflexivity.
    + intros msg' Hid.
      destruct (decide (type_ msg' = "change"%string)) as [Hchange|Hother].
      * destruct msg'; try discriminate Hchange.
        cbn [dispatchMessage].
        destruct (subscriptions c' !! id) as [sub|]; eexists;
          (split; [reflexivity|]); split; try contradiction.
        -- intros ef Hef. apply list_elem_of_singleton in Hef as ->.
           exact (fun H => H).
        -- intros ef Hef. apply not_elem_of_nil in Hef. contradiction.
      * exists []. rewrite dispatchMessage_response by exact Hother.
        rewrite Hid, Hgone. split; [reflexivity|]. split; [|reflexivity].
        intros ef Hef. apply not_elem_of_nil in Hef. contradiction.
Qed.

(** What [unsubscribe] does at every client: it first removes the callback
    from the Subscription Table, so that a change notification for that id
    is dropped from then on, and it registers no pending request, so that
    the server's [unsubscribed] acknowledgement finds no entry and is
    dropped. Without a socket it then completes; with the field [socket]
    set it goes on to [this.socket.write(frame)], which raises. *)
Lemma unsubscribe_outcome c (subscriptionId : string) :
  let c' := set_subscriptions
              (base.delete subscriptionId (subscriptions c)) c in
  unsubscribe c subscriptionId
  = (c', [],
     match socket c with
     | Some _ => Throw (TypeError_not_a_function "this.socket.write")
     | None => Return tt
     end)
  /\ subscriptions c' !! subscriptionId = None
  /\ (forall k, k <> subscriptionId ->
                subscriptions c' !! k = subscriptions c !! k)
  /\ pending c' = pending c
  /\ (forall change : ChangeEvent unknown,
        dispatchMessage c' (S_change subscriptionId change) = (c', []))
  /\ (JsMap.get (pending c) subscriptionId = None ->
      dispatchMessage c' (@S_unsubscribed unknown subscriptionId)
      = (c', [])).
Proof.
  intros c'.
  assert (Hgone : subscriptions c' !! subscriptionId = None)
    by apply lookup_delete_eq.
  split; [|split; [|split; [|split; [|split]]]].
  - unfold unsubscribe. fold c'. cbn [socket c' set_subscriptions].
    destruct (socket c) as [[]|]; reflexivity.
  - exact Hgone.
  - intros k Hk. cbn [c' subscriptions set_subscriptions].
    apply lookup_delete_ne. congruence.
  - reflexivity.
  - intros change. cbn [dispatchMessage]. rewrite Hgone. reflexivity.
  - intros Hnone. cbn [dispatchMessage id_].
    change (pending c') with (pending c). rewrite Hnone. reflexivity.
Qed.

End Dispatch.

Lemma dispatch_routing_witness :
  let c := ready_client [] in
  let msg := S_result "3" 7 in
  exists c',
    Tcp.dispatchMessage c msg
    = (c', [Tcp.Resolve (Tcp.request_promise 3) msg])
    /\ Tcp.dispatchMessage c' msg = (c', []).
Proof.
  intros c msg.
  destruct (dispatch_routing c msg) as (_ & _ & _ & Hfulfil).
  destruct (Hfulfil (request 3)) as (Hfirst & _ & _ & _ & Hlater).
  - discriminate.
  - reflexivity.
  - destruct (Hlater msg eq_refl) as (out' & Hsecond & _ & Hdrop).
    eexists. split; [exact Hfirst|].
    rewrite Hsecond, Hdrop; [reflexivity|discriminate].
Defined.

(** C9 (the code at a connected client). The claim describes what
    [unsubscribe] is written to do, and the code does it on a client
    without a socket. On a client that [connect] has built, the field
    [socket] holds the promise [Bun.connect] returned, which
    [connectSocket] stores without awaiting it: after the handshake has
    succeeded, [unsubscribe] removes the callback and registers no pending
    request, but [this.socket.write(frame)] raises a TypeError, so that no
    unsubscribe request is written and the call fails instead of
    completing. The same happens on a client that holds a subscription
    under the id. *)
Theorem unsubscribe_throws_once_connected :
  let c0 := Tcp.connectSocket (Tcp.new_SquirrelDBTcp default_options)
              (Tcp.connect_promise 0) in
  (exists c,
      Tcp.run c0 [Tcp.on_open; Tcp.on_data success_response]
      = Some (c, [Tcp.SocketWrite
                    [x53; x51; x52; x4c; x01; x03; x00; x00];
                  Tcp.ResolveConnect (Tcp.connect_promise 0)])
      /\ Tcp.handshakeCompleted c = true
      /\ Tcp.socket c = Some Tcp.BunConnectPromise
      /\ @Tcp.unsubscribe Z _ c "1"
         = (c, [], Throw (TypeError_not_a_function "this.socket.write")))
  /\ (let c := ready_client [] in
      @Tcp.unsubscribe Z _ c "2"
      = (Tcp.set_subscriptions ∅ c, [],
         Throw (TypeError_not_a_function "this.socket.write"))
      /\ Tcp.pending (@Tcp.unsubscribe Z _ c "2").1.1 = Tcp.pending c).
Proof.
  intros c0. split.
  - eexists. split; [reflexivity|].
    split; [reflexivity|]. split; [reflexivity|].
    vm_compute. reflexivity.
  - intros c. split; [|reflexivity].
    destruct (unsubscribe_outcome (unknown := Z) c "2") as (Heq & _).
    rewrite Heq. reflexivity.
Qed.

(** ** Closing *)

Section Closing.

Context {unknown : Type} `{!Serialisers unknown}.

Import Tcp.

Implicit Types (c : Client).

Local Abbreviation handleClose := (@Tcp.handleClose unknown).
Local Abbreviation close := (@Tcp.close unknown).

Lemma handleClose_rejects c (ef : @Effect unknown) :
  ef ∈ (handleClose c).2 ->
  exists req, req ∈ JsMap.values (pending c)
              /\ ef = Reject (reject req) (Error "Connection closed").
Proof.
  cbn [handleClose snd]. intros Hef.
  apply list_elem_of_fmap in Hef as (req & -> & Hreq).
  exists req. split; [exact Hreq|reflexivity].
Qed.

Lemma handleClose_rejects_all c (req : PendingRequest) :
  req ∈ JsMap.values (pending c) ->
  @Reject unknown (reject req) (Error "Connection closed")
    ∈ (handleClose c).2.
Proof.
  intros Hreq. cbn [handleClose snd].
  apply list_elem_of_fmap. exists req. split; [reflexivity|exact Hreq].
Qed.

(** C2 (as amended). The transport's close handler fails every entry of
    the Pending Request Table with "Connection closed", in the order the
    requests were registered, and leaves the table empty; it invokes no
    subscription callback and leaves the Subscription Table as it is. An
    explicit [close] clears the Subscription Table without invoking a
    callback; it fails no pending request and leaves the Pending Request
    Table as it is. Once the transport's close handler has run on a
    client on which [close] has been called, the session is Closed as the
    specification describes: every pending request failed, both tables
    empty, no callback invoked. The transport's error handler leaves the
    client as it is; all it ever does is reject the connect operation
    while the handshake is incomplete. *)
Theorem close_semantics c :
  (pending (handleClose c).1 = JsMap.empty
   /\ (handleClose c).2
      = map (fun req => @Reject unknown (reject req)
                          (Error "Connection closed"))
            (JsMap.values (pending c))
   /\ subscriptions (handleClose c).1 = subscriptions c
   /\ (forall f change, @Invoke unknown f change ∉ (handleClose c).2))
  /\ (subscriptions (close c).1.1 = ∅
      /\ pending (close c).1.1 = pending c
      /\ (forall f change, @Invoke unknown f change ∉ (close c).1.2)
      /\ (forall p err, @Reject unknown p err ∉ (close c).1.2))
  /\ entered_Closed c (handleClose (close c).1.1)
  /\ (forall error,
        handle c (on_error error)
        = Some (c, if handshakeCompleted c then []
                   else handshakeReject_opt c
                          (Error ("Connection error: " +:+ error)))).
Proof.
  assert (Hclose : subscriptions (close c).1.1 = ∅
                   /\ pending (close c).1.1 = pending c
                   /\ (close c).1.2 = []).
  { unfold close.
    destruct (socket (set_subscriptions ∅ c)) as [[]|];
      repeat split. }
  destruct Hclose as (Hsubs & Hpending & Hout).
  split; [|split; [|split]].
  - cbn [handleClose fst snd pending subscriptions set_pending].
    repeat split.
    intros f change Hin.
    apply (handleClose_rejects c) in Hin as (req & _ & Heq).
    discriminate Heq.
  - split; [exact Hsubs|]. split; [exact Hpending|].
    rewrite Hout. split; intros; apply not_elem_of_nil.
  - unfold entered_Closed.
    cbn [handleClose fst snd pending subscriptions set_pending].
    rewrite Hsubs, Hpending.
    split; [reflexivity|]. split; [|split; [reflexivity|]].
    + intros req Hreq. apply list_elem_of_fmap.
      exists req. split; [reflexivity|exact Hreq].
    + intros f change Hin.
      apply list_elem_of_fmap in Hin as (req & Heq & _).
      discriminate Heq.
  - intros error. cbn [handle]. destruct (handshakeCompleted c); reflexivity.
Qed.

(** The states and effects of the handlers that run while the handshake
    response is still incomplete. *)
Lemma handle_before_handshake c (ev : SocketEvent) :
  handshakeCompleted c = false ->
  error_free [ev] = true ->
  len (readBuffer c) + received [ev] < 19 ->
  exists c' out,
    handle c ev = Some (c', out)
    /\ (forall ef, ef ∈ out -> ~ @settles_connect unknown ef)
    /\ handshakeCompleted c' = false
    /\ handshakeResolve c' = handshakeResolve c
    /\ handshakeReject c' = handshakeReject c
    /\ len (readBuffer c') = len (readBuffer c) + received [ev].
Proof.
  intros Hpending Hclean Hfew. destruct ev as [|data| |error].
  - eexists _, _. split; [reflexivity|]. cbn [received].
    repeat split; try assumption; try lia.
    intros ef Hef. apply list_elem_of_singleton in Hef as ->.
    exact (fun H => H).
  - cbn [received] in Hfew. cbn [handle]. unfold handleData.
    cbn [handshakeCompleted readBuffer set_readBuffer].
    rewrite Hpending. cbn [negb].
    destruct (Z.geb_spec (len (readBuffer c ++ data)) 19) as [Hfull|_].
    { rewrite len_app in Hfull. lia. }
    eexists _, _. split; [reflexivity|].
    cbn [handshakeCompleted handshakeResolve handshakeReject readBuffer
         set_readBuffer received].
    repeat split; try assumption.
    + intros ef Hef. apply not_elem_of_nil in Hef. contradiction.
    + rewrite len_app. lia.
  - exists (handleClose c).1, (handleClose c).2.
    split; [cbn [handle]; destruct (handleClose c); reflexivity|].
    cbn [handleClose fst received handshakeCompleted handshakeResolve
         handshakeReject readBuffer set_pending].
    repeat split; try assumption; try lia.
    intros ef Hef. apply handleClose_rejects in Hef as (req & _ & ->).
    exact (fun H => H).
  - discriminate Hclean.
Qed.

Lemma run_before_handshake (evs : list SocketEvent) c :
  handshakeCompleted c = false ->
  error_free evs = true ->
  len (readBuffer c) + received evs < 19 ->
  exists c' out,
    run c evs = Some (c', out)
    /\ (forall ef, ef ∈ out -> ~ @settles_connect unknown ef)
    /\ handshakeCompleted c' = false
    /\ handshakeResolve c' = handshakeResolve c
    /\ handshakeReject c' = handshakeReject c.
Proof.
  revert c. induction evs as [|ev evs IH]; intros c Hpending Hclean Hfew.
  - exists c, []. repeat split; try assumption.
    intros ef Hef. apply not_elem_of_nil in Hef. contradiction.
  - assert (Hrest : 0 <= received evs).
    { clear. induction evs as [|[|data| |error] evs IH];
        cbn [received]; try lia.
      pose proof (len_nonneg data). lia. }
    assert (Hev : error_free [ev] = true /\ error_free evs = true).
    { destruct ev; cbn [error_free] in *; split;
        try reflexivity; try assumption; discriminate. }
    assert (Hsplit : received (ev :: evs) = received [ev] + received evs).
    { destruct ev; cbn [received]; lia. }
    destruct (handle_before_handshake c ev Hpending (proj1 Hev))
      as (c1 & out1 & Hstep & Hno1 & Hp1 & Hres1 & Hrej1 & Hlen1);
      [lia|].
    destruct (IH c1 Hp1 (proj2 Hev)) as (c2 & out2 & Hrun & Hno2 & Hp2
                                         & Hres2 & Hrej2); [lia|].
    exists c2, (out1 ++ out2). cbn [run]. rewrite Hstep, Hrun.
    split; [reflexivity|]. split; [|split; [exact Hp2|split; congruence]].
    intros ef Hef. apply elem_of_app in Hef as [Hef|Hef]; auto.
Qed.

(** C10. The transport's close handler changes only the Pending Request
    Table: the handshake slot ([handshakeCompleted], [handshakeResolve],
    [handshakeReject]), the Subscription Table, the receive buffer and
    every other field stay as they are, and the only calls it makes reject
    pending requests. So when the stream closes after socket events that
    include no [error] event and have delivered fewer than 19 bytes, the
    handshake response has not been parsed and the promise of the connect
    operation has been neither resolved nor rejected; its slot is still
    in place. *)
Theorem handleClose_frame c :
  (handleClose c).1 = set_pending JsMap.empty c
  /\ handshakeCompleted (handleClose c).1 = handshakeCompleted c
  /\ handshakeResolve (handleClose c).1 = handshakeResolve c
  /\ handshakeReject (handleClose c).1 = handshakeReject c
  /\ subscriptions (handleClose c).1 = subscriptions c
  /\ readBuffer (handleClose c).1 = readBuffer c
  /\ (forall ef, ef ∈ (handleClose c).2 -> ~ @settles_connect unknown ef)
  /\ (forall evs : list SocketEvent,
        handshakeCompleted c = false ->
        error_free evs = true ->
        len (readBuffer c) + received evs < 19 ->
        exists c' out,
          run c (evs ++ [on_close]) = Some (c', out)
          /\ (forall ef, ef ∈ out -> ~ @settles_connect unknown ef)
          /\ handshakeCompleted c' = false
          /\ handshakeResolve c' = handshakeResolve c
          /\ handshakeReject c' = handshakeReject c).
Proof.
  repeat (split; [reflexivity|]). split.
  - intros ef Hef. apply handleClose_rejects in Hef as (req & _ & ->).
    exact (fun H => H).
  - intros evs Hpending Hclean Hfew.
    apply run_before_handshake; [exact Hpending| |].
    + clear Hfew. induction evs as [|[|data| |error] evs IH];
        cbn [app error_free] in *; auto.
    + replace (received (evs ++ [on_close])) with (received evs);
        [exact Hfew|].
      clear. induction evs as [|[|data| |error] evs IH];
        cbn [app received]; try reflexivity; try exact IH.
      rewrite IH. reflexivity.
Qed.

End Closing.

(** C2 (as stated) fails on both paths taken alone: after the transport's
    close handler the subscription "2" is still in the Subscription Table,
    and after an explicit [close] the requests "3" and "4" are still
    pending and none has been failed. *)
Lemma close_paths_differ :
  let c := ready_client [] in
  Tcp.subscriptions (@Tcp.handleClose Z c).1 !! "2"%string
  = Some {| Tcp.callback := Tcp.user_function 2 |}
  /\ ~ entered_Closed c (@Tcp.handleClose Z c)
  /\ Tcp.pending (@Tcp.close Z c).1.1
     = [("3"%string, request 3); ("4"%string, request 4)]
  /\ (forall p err, @Tcp.Reject Z p err ∉ (@Tcp.close Z c).1.2)
  /\ ~ entered_Closed c (@Tcp.close Z c).1
  /\ ~ @close_semantics_for_both_paths Z.
Proof.
  intros c.
  assert (Hsub : Tcp.subscriptions (@Tcp.handleClose Z c).1 !! "2"%string
                 = Some {| Tcp.callback := Tcp.user_function 2 |})
    by reflexivity.
  assert (Hnot : ~ entered_Closed c (@Tcp.handleClose Z c)).
  { intros (_ & _ & Hempty & _). rewrite Hempty in Hsub.
    rewrite lookup_empty in Hsub. discriminate Hsub. }
  assert (Hnot' : ~ entered_Closed c (@Tcp.close Z c).1).
  { intros (Hempty & _). discriminate Hempty. }
  split; [exact Hsub|]. split; [exact Hnot|]. split; [reflexivity|].
  split; [intros p err; apply not_elem_of_nil|]. split; [exact Hnot'|].
  intros Hall. exact (Hnot (proj1 (Hall c))).
Qed.

Lemma close_semantics_witness :
  let c := ready_client [] in
  (@Tcp.handleClose Z c).2
  = [Tcp.Reject (Tcp.request_promise 3) (Error "Connection closed");
     Tcp.Reject (Tcp.request_promise 4) (Error "Connection closed")]
  /\ Tcp.subscriptions (@Tcp.close Z c).1.1 = ∅
  /\ entered_Closed c (@Tcp.handleClose Z (@Tcp.close Z c).1.1).
Proof.
  intros c.
  destruct (close_semantics (unknown := Z) c)
    as ((_ & Hout & _) & (Hsubs & _) & Hboth & _).
  split; [exact Hout|]. split; [exact Hsubs|exact Hboth].
Defined.

Lemma handleClose_frame_witness :
  let c := Tcp.connectSocket (Tcp.new_SquirrelDBTcp default_options)
             (Tcp.connect_promise 0) in
  exists c' out,
    Tcp.run c ([Tcp.on_open; Tcp.on_data [x00; x01]] ++ [Tcp.on_close])
    = Some (c', out)
    /\ (forall ef, ef ∈ out -> ~ @settles_connect Z ef)
    /\ Tcp.handshakeResolve c' = Some (Tcp.connect_promise 0)
    /\ Tcp.handshakeReject c' = Some (Tcp.connect_promise 0).
Proof.
  intros c.
  destruct (handleClose_frame (unknown := Z) c)
    as (_ & _ & _ & _ & _ & _ & _ & Hrun).
  destruct (Hrun [Tcp.on_open; Tcp.on_data [x00; x01]])
    as (c' & out & Hr & Hno & _ & Hres & Hrej).
  - reflexivity.
  - reflexivity.
  - vm_compute. reflexivity.
  - exists c', out. repeat split; assumption.
Defined.

(** ** The operations of the client *)

Section Operations.

Context {unknown : Type} `{!Serialisers unknown}.

Import Tcp.

Implicit Types (c : Client) (resp : ServerMessage unknown).

(** C3 (as amended). [query], [queryRaw], [insert], [update], [delete] and
    [listCollections] validate the tag of the response: an [error]
    response becomes a failure carrying the server's error text, a
    [result] response yields its data, and a response with any other tag
    fails with "Unexpected response". [subscribe] turns an [error]
    response into a failure carrying the server's error text and accepts a
    response with any other tag, registering the callback under the id of
    the request. [ping] accepts a [pong] response and fails with
    "Unexpected response" on every other tag, [error] included. *)
Theorem response_tag_validation :
  (forall resume,
     resume ∈ @result_operations unknown ->
     (forall id text,
        resume (Fulfilled (S_error id text)) = Throw (Error text))
     /\ (forall id data,
           resume (Fulfilled (S_result id data)) = Return data)
     /\ (forall resp,
           type_ resp <> "error"%string -> type_ resp <> "result"%string ->
           resume (Fulfilled resp) = Throw (Error "Unexpected response")))
  /\ (forall c id callback rid text,
        subscribe_resume c id callback
          (Fulfilled (@S_error unknown rid text))
        = (c, Throw (Error text)))
  /\ (forall c id callback resp,
        type_ resp <> "error"%string ->
        subscribe_resume c id callback (Fulfilled resp)
        = (set_subscriptions
             (<[id := {| callback := callback |}]> (subscriptions c)) c,
           Return {| subscription_id := id |}))
  /\ (forall id, ping_resume (Fulfilled (@S_pong unknown id)) = Return tt)
  /\ (forall resp,
        type_ resp <> "pong"%string ->
        ping_resume (Fulfilled resp) = Throw (Error "Unexpected response")).
Proof.
  split; [|split; [|split; [|split]]].
  - intros resume Hin. unfold result_operations in Hin.
    rewrite !elem_of_cons in Hin.
    destruct Hin as [->|[->|[->|[->|[->|[->|Hin]]]]]];
      [| | | | | |apply not_elem_of_nil in Hin; contradiction];
      (split; [reflexivity|split; [reflexivity|]]);
      intros [] Herr Hres; try reflexivity;
      exfalso; (apply Herr; reflexivity) || (apply Hres; reflexivity).
  - reflexivity.
  - intros c id callback [] Herr; try reflexivity.
    exfalso. apply Herr. reflexivity.
  - reflexivity.
  - intros [] Hpong; try reflexivity.
    exfalso. apply Hpong. reflexivity.
Qed.

(** Encoding and decoding a message under one encoding comes down to the
    round trip through the serialiser of that encoding. *)
Lemma decodeMessage_encodeMessage (msg : ClientMessage unknown)
    (e : Encoding) :
  decodeMessage (encodeMessage msg e) (Encoding_value e)
  = match e with
    | MessagePack => unpack (pack msg)
    | Json => JSON_parse (TextDecoder_decode
                            (TextEncoder_encode (JSON_stringify msg)))
    end.
Proof. destruct e; reflexivity. Qed.

End Operations.

Lemma response_tag_validation_witness :
  Tcp.query_resume (Tcp.Fulfilled (@S_pong Z "1"))
  = Throw (Error "Unexpected response")
  /\ Tcp.ping_resume (Tcp.Fulfilled (@S_subscribed Z "1"))
     = Throw (Error "Unexpected response").
Proof.
  destruct (response_tag_validation (unknown := Z))
    as (Hresult & _ & _ & _ & Hping).
  split.
  - apply (Hresult Tcp.query_resume).
    + apply list_elem_of_here.
    + discriminate.
    + discriminate.
  - apply Hping. discriminate.
Defined.

(** C3 (as stated) fails for [subscribe] and for [ping]: [subscribe]
    accepts a [result] response and registers the callback, and [ping]
    answers an [error] response with "Unexpected response" instead of the
    server's text. *)
Lemma subscribe_and_ping_do_not_validate :
  let c := ready_client [] in
  let f := Tcp.user_function 5 in
  Tcp.subscribe_resume c "5" f (Tcp.Fulfilled (S_result "5" 0))
  = (Tcp.set_subscriptions
       (<["5"%string := {| Tcp.callback := f |}]> (Tcp.subscriptions c)) c,
     Return {| Tcp.subscription_id := "5" |})
  /\ Tcp.ping_resume (Tcp.Fulfilled (@S_error Z "6" "boom"))
     = Throw (Error "Unexpected response")
  /\ ~ validates_response_tag "subscribed"
         (fun r => (@Tcp.subscribe_resume Z c "5" f r).2)
  /\ ~ validates_response_tag "pong" (@Tcp.ping_resume Z).
Proof.
  intros c f. split; [reflexivity|]. split; [reflexivity|]. split.
  - intros Hval.
    destruct (Hval (S_result "5" 0)) as [_ Hother].
    specialize (Hother ltac:(discriminate) ltac:(discriminate)).
    discriminate Hother.
  - intros Hval.
    destruct (Hval (S_error "6" "boom")) as [Herror _].
    specialize (Herror "6"%string "boom"%string eq_refl).
    discriminate Herror.
Qed.

(** * Further properties of the framing codec *)

Section CodecMore.

Import Bytes Protocol.

(** X1. The flags byte round-trips: decoding the byte built from a pair of
    flags gives the pair back, the byte built is 0, 1, 2 or 3, and
    rebuilding the byte from decoded flags keeps bits 0 and 1 of the
    original and clears the six others. *)
Theorem flags_roundtrip :
  (forall f : ProtocolFlags, byteToFlags (flagsToByte f) = f)
  /\ (forall f : ProtocolFlags, 0 <= flagsToByte f <= 3)
  /\ (forall b : byte, flagsToByte (byteToFlags (to_Z b)) = Z.land (to_Z b) 3).
Proof.
  split; [|split].
  - intros [[] []]; reflexivity.
  - intros [[] []]; vm_compute; split; discriminate.
  - intros b. destruct b; reflexivity.
Qed.

(** The bytes [buildHandshake] produces. *)
Lemma buildHandshake_layout (tokenBytes : Uint8Array) (f : ProtocolFlags) :
  let w := len tokenBytes mod 2 ^ 16 in
  buildHandshake tokenBytes f
  = [x53; x51; x52; x4c; of_Z PROTOCOL_VERSION; of_Z (flagsToByte f);
     of_Z (w / 2 ^ 8); of_Z w] ++ tokenBytes.
Proof.
  intros w. unfold buildHandshake, alloc.
  change (replicate (8 + length tokenBytes) x00)
    with ([x00; x00; x00; x00; x00; x00; x00; x00]
            ++ replicate (length tokenBytes) x00).
  unfold setUint16, setUint8, MAGIC. fold w.
  unfold Bytes.set at 2.
  cbn [app list_inserts list_insert alter list_alter].
  apply (set_tail
           [x53; x51; x52; x4c; of_Z PROTOCOL_VERSION; of_Z (flagsToByte f);
            of_Z (w / 2 ^ 8); of_Z w]).
  apply length_replicate.
Qed.

Lemma flagsToByte_byte (f : ProtocolFlags) :
  to_Z (of_Z (flagsToByte f)) = flagsToByte f.
Proof. destruct f as [[] []]; reflexivity. Qed.

(** X2. The handshake packet: for every pair of flags and every token of
    fewer than 65536 bytes the packet is 8 bytes longer than the token; it
    starts with the magic "SQRL" and the protocol version 1; byte 5 decodes
    to the flags; bytes 6 and 7 hold the token length, high byte first;
    and the token follows verbatim from offset 8. *)
Theorem buildHandshake_spec (tokenBytes : Uint8Array) (f : ProtocolFlags) :
  len tokenBytes < 2 ^ 16 ->
  let packet := buildHandshake tokenBytes f in
  len packet = 8 + len tokenBytes
  /\ slice packet 0 4 = MAGIC
  /\ at_ packet 4 = PROTOCOL_VERSION
  /\ byteToFlags (at_ packet 5) = f
  /\ at_ packet 6 * 2 ^ 8 + at_ packet 7 = len tokenBytes
  /\ slice_from packet 8 = tokenBytes.
Proof.
  intros Hfit packet. pose proof (len_nonneg tokenBytes) as Hpos.
  assert (Hw : len tokenBytes mod 2 ^ 16 = len tokenBytes)
    by (apply Z.mod_small; split; [exact Hpos|exact Hfit]).
  assert (Hlen : len packet = 8 + len tokenBytes).
  { unfold packet. rewrite buildHandshake_layout. cbv zeta.
    unfold len. rewrite length_app. cbn [length]. lia. }
  unfold packet in *. rewrite buildHandshake_layout in *. cbv zeta in *.
  rewrite Hw in *. clear Hw.
  split; [exact Hlen|]. split; [|split; [|split; [|split]]].
  - rewrite slice_inside by lia. reflexivity.
  - reflexivity.
  - unfold at_. cbn [app nth]. rewrite flagsToByte_byte.
    destruct f as [[] []]; reflexivity.
  - unfold at_. cbn [app nth]. rewrite !to_Z_of_Z.
    change (2 ^ 16) with 65536 in Hfit. change (2 ^ 8) with 256.
    clear Hlen. Z.div_mod_to_equations. lia.
  - rewrite slice_from_inside by lia. reflexivity.
Qed.

Lemma buildHandshake_spec_witness :
  let packet := buildHandshake [x61; x62; x63]
                  {| messagepack := true; jsonFallback := false |} in
  packet = [x53; x51; x52; x4c; x01; x01; x00; x03; x61; x62; x63]
  /\ slice_from packet 8 = [x61; x62; x63].
Proof.
  intros packet. split; [reflexivity|].
  apply (buildHandshake_spec [x61; x62; x63]
           {| messagepack := true; jsonFallback := false |}).
  vm_compute. reflexivity.
Defined.

Lemma to_Z_inj (b b' : byte) : to_Z b = to_Z b' -> b = b'.
Proof.
  unfold to_Z. intros H. apply N2Z.inj in H.
  pose proof (Byte.of_to_N b) as Hb. rewrite H, Byte.of_to_N in Hb.
  congruence.
Qed.

Lemma hexDigit_nat_inj (n m : nat) :
  (n < 16)%nat -> (m < 16)%nat ->
  hexDigit (Z.of_nat n) = hexDigit (Z.of_nat m) -> n = m.
Proof.
  intros Hn Hm.
  do 16 (destruct n as [|n];
         [do 16 (destruct m as [|m];
                 [first [reflexivity | intros H; discriminate H]|]); lia|]).
  lia.
Qed.

Lemma hexDigit_inj (x y : Z) :
  0 <= x < 16 -> 0 <= y < 16 -> hexDigit x = hexDigit y -> x = y.
Proof.
  intros Hx Hy H.
  rewrite <- (Z2Nat.id x), <- (Z2Nat.id y) in H by lia.
  apply hexDigit_nat_inj in H; lia.
Qed.

(** Two bytes with the same two hexadecimal digits are the same byte. *)
Lemma hexByte_inj (b b' : byte) : hexByte b = hexByte b' -> b = b'.
Proof.
  unfold hexByte. intros [= Hhi Hlo].
  pose proof (to_Z_range b). pose proof (to_Z_range b').
  apply hexDigit_inj in Hhi;
    [|split; [apply Z.div_pos; lia|apply Z.div_lt_upper_bound; lia]..].
  apply hexDigit_inj in Hlo; [|apply Z.mod_pos_bound; lia..].
  apply to_Z_inj.
  rewrite (Z.div_mod (to_Z b) 16), (Z.div_mod (to_Z b') 16) by lia.
  rewrite Hhi, Hlo. reflexivity.
Qed.

Ltac name_hex_digits :=
  repeat match goal with
         | |- context [hexDigit ?x] =>
             let h := fresh "h" in
             let E := fresh "E" in
             remember (hexDigit x) as h eqn:E; clear E
         end.

Ltac name_hex_digits_in H :=
  repeat match type of H with
         | context [hexDigit ?x] =>
             let h := fresh "h" in
             remember (hexDigit x) as h
         end.

(** X3. The rendering of a 16-byte session id is 36 characters long, with
    a hyphen at positions 8, 13, 18 and 23, and distinct 16-byte ids
    render to distinct strings. *)
Theorem uuidToString_spec (a : Uint8Array) :
  length a = 16%nat ->
  String.length (uuidToString a) = 36%nat
  /\ String.get 8 (uuidToString a) = Some "-"%char
  /\ String.get 13 (uuidToString a) = Some "-"%char
  /\ String.get 18 (uuidToString a) = Some "-"%char
  /\ String.get 23 (uuidToString a) = Some "-"%char
  /\ (forall b : Uint8Array,
        length b = 16%nat -> uuidToString a = uuidToString b -> a = b).
Proof.
  intros Ha.
  repeat (destruct a as [|? a]; try discriminate Ha). clear Ha.
  split; [|split; [|split; [|split; [|split]]]];
    try (unfold uuidToString, hexByte; cbn [map]; name_hex_digits;
         reflexivity).
  intros a' Hb H.
  repeat (destruct a' as [|? a']; try discriminate Hb). clear Hb.
  unfold uuidToString in H. cbn [map] in H. unfold hexByte in H.
  name_hex_digits_in H. cbv in H.
  injection H as ? ? ? ? ? ? ? ? ? ? ? ? ? ? ? ?
                 ? ? ? ? ? ? ? ? ? ? ? ? ? ? ? ?.
  repeat f_equal; apply hexByte_inj; unfold hexByte; congruence.
Qed.

Lemma uuidToString_spec_witness :
  String.length
    (uuidToString [x55; x0e; x84; x00; xe2; x9b; x41; xd4;
                   xa7; x16; x44; x66; x55; x44; x00; x00]) = 36%nat.
Proof.
  apply (uuidToString_spec
           [x55; x0e; x84; x00; xe2; x9b; x41; xd4;
            xa7; x16; x44; x66; x55; x44; x00; x00]).
  reflexivity.
Defined.

(** X4. [parseFrameHeader] throws exactly when fewer than 6 bytes are
    given. When it returns, the payload length lies between -2 and
    2^32 - 3 and the two tags are byte values; and the result depends on
    the first six bytes only: bytes that follow them do not change it. *)
Theorem parseFrameHeader_spec (data : Uint8Array) :
  ((exists e, parseFrameHeader data = Throw e) <-> len data < 6)
  /\ (forall header,
        parseFrameHeader data = Return header ->
        -2 <= payloadLength header <= 2 ^ 32 - 3
        /\ 0 <= msgType header < 256
        /\ 0 <= Protocol.encoding header < 256)
  /\ (forall extra,
        6 <= len data ->
        parseFrameHeader (data ++ extra) = parseFrameHeader data).
Proof.
  split; [|split].
  - unfold parseFrameHeader.
    destruct (Z.ltb_spec (len data) 6) as [Hlt|Hge]; split.
    + intros _. exact Hlt.
    + intros _. eexists. reflexivity.
    + intros [e He]. discriminate He.
    + intros Hlt. lia.
  - intros header. unfold parseFrameHeader.
    destruct (len data <? 6); [discriminate|]. intros [= <-].
    cbn [payloadLength msgType Protocol.encoding].
    pose proof (getUint32_range data) as Hrange.
    change (2 ^ 32) with 4294967296 in *.
    unfold at_. pose proof (to_Z_range (nth 4 data x00)).
    pose proof (to_Z_range (nth 5 data x00)). lia.
  - intros extra Hlen. unfold parseFrameHeader.
    pose proof (len_nonneg extra) as Hextra.
    destruct (Z.ltb_spec (len (data ++ extra)) 6) as [Hshort|_];
      [rewrite len_app in Hshort; lia|].
    destruct (Z.ltb_spec (len data) 6) as [?|_]; [lia|].
    unfold getUint32, at_. unfold len in Hlen.
    rewrite !app_nth1 by lia. reflexivity.
Qed.

Lemma parseFrameHeader_spec_witness :
  parseFrameHeader ([x00; x00; x00; x04; x01; x02] ++ [x7b; x7d])
  = Return {| payloadLength := 2; msgType := 1; Protocol.encoding := 2 |}.
Proof.
  rewrite (proj2 (proj2 (parseFrameHeader_spec
                           [x00; x00; x00; x04; x01; x02]))).
  - reflexivity.
  - vm_compute. discriminate.
Defined.

End CodecMore.

(** * Further properties of the wire session *)

Section FramesMore.

Context {unknown : Type} `{!Serialisers unknown}.

Import Tcp.

Implicit Types (c : Client) (msg : ServerMessage unknown).

(** The three ways a pass of the loop can go, by the length field. *)
Lemma processFrames_body_cases c :
  6 <= len (readBuffer c) ->
  let total := 4 + getUint32 (readBuffer c) 0 in
  processFrames_body c
  = if getUint32 (readBuffer c) 0 - 2 >? MAX_MESSAGE_SIZE then
      Leave c [ConsoleError
                 ["Message too large: "
                  +:+ num (getUint32 (readBuffer c) 0 - 2)]]
    else if len (readBuffer c) <? total then Leave c []
    else
      let c0 := set_readBuffer (drop (Z.to_nat total) (readBuffer c)) c in
      match decodeMessage (slice (readBuffer c) 6 total)
                          (at_ (readBuffer c) 5) with
      | Return msg =>
          let '(c1, out) := dispatchMessage c0 msg in Again c1 out
      | Throw e =>
          Again c0 [ConsoleError ["Failed to decode message:"; message e]]
      end.
Proof.
  intros Hlen total. pose proof (getUint32_range (readBuffer c)) as Hrange.
  unfold processFrames_body, parseFrameHeader.
  destruct (Z.ltb_spec (len (readBuffer c)) 6) as [?|_]; [lia|].
  cbn [payloadLength Protocol.encoding].
  destruct (getUint32 (readBuffer c) 0 - 2 >? MAX_MESSAGE_SIZE);
    [reflexivity|].
  replace (6 + (getUint32 (readBuffer c) 0 - 2)) with total
    by (unfold total; lia).
  destruct (Z.ltb_spec (len (readBuffer c)) total) as [?|Hfits];
    [reflexivity|].
  rewrite slice_from_inside by (unfold total; lia). reflexivity.
Qed.

(** Reasoning about [processFrames] pass by pass. *)
Lemma processFrames_induction
    (P : Client -> Client -> list (@Effect unknown) -> Prop) :
  (forall c, len (readBuffer c) < 6 -> P c c []) ->
  (forall c c' out,
     6 <= len (readBuffer c) ->
     processFrames_body c = Leave c' out -> P c c' out) ->
  (forall c c1 out1 c2 out2,
     6 <= len (readBuffer c) ->
     processFrames_body c = Again c1 out1 ->
     processFrames c1 = Some (c2, out2) ->
     P c1 c2 out2 -> P c c2 (out1 ++ out2)) ->
  forall c c' out, processFrames c = Some (c', out) -> P c c' out.
Proof.
  intros Hshort Hleave Hagain c.
  remember (length (readBuffer c)) as n eqn:Hn.
  revert c Hn. induction (lt_wf n) as [n _ IH]. intros c -> c' out Hrun.
  rewrite processFrames_unfold in Hrun.
  destruct (Z.geb_spec (len (readBuffer c)) 6) as [Hlen|Hlen].
  - destruct (processFrames_body c) as [c1 out1|c1 out1] eqn:Hbody.
    + injection Hrun as <- <-. apply Hleave; [lia|exact Hbody].
    + destruct (processFrames c1) as [[c2 out2]|] eqn:Hrest;
        [|discriminate].
      injection Hrun as <- <-.
      apply (Hagain c c1 out1 c2 out2); [lia|exact Hbody|exact Hrest|].
      apply (IH (length (readBuffer c1))); [|reflexivity|exact Hrest].
      apply (processFrames_body_shrinks c c1 out1); [lia|exact Hbody].
  - injection Hrun as <- <-. apply Hshort. exact Hlen.
Qed.

Lemma get_delete_Some {V : Type} (m : JsMap.t V) (k k' : string) (v : V) :
  JsMap.get (JsMap.delete m k) k' = Some v -> JsMap.get m k' = Some v.
Proof.
  destruct (decide (k = k')) as [->|Hne].
  - rewrite get_delete_eq. discriminate.
  - rewrite get_delete_ne by exact Hne. exact (fun H => H).
Qed.

(** What [dispatchMessage] does besides leaving most fields alone: it
    adds no pending request, and it only resolves or invokes. *)
Lemma dispatchMessage_inbound c msg :
  (forall k v, JsMap.get (pending (dispatchMessage c msg).1) k = Some v ->
               JsMap.get (pending c) k = Some v)
  /\ (forall ef, ef ∈ (dispatchMessage c msg).2 -> inbound_effect ef).
Proof.
  unfold dispatchMessage.
  destruct msg; cbn [id_];
    repeat match goal with
           | |- context [match ?x with _ => _ end] => destruct x
           end;
    cbn [fst snd pending set_pending]; split;
    try (intros k v; first [exact (fun H => H) | apply get_delete_Some]);
    intros ef Hef;
    first [apply not_elem_of_nil in Hef; contradiction
          |apply list_elem_of_singleton in Hef as ->; exact I].
Qed.

End FramesMore.

Section Footprint.

Context {unknown : Type} `{!Serialisers unknown}.

Import Tcp.

Implicit Types (c : Client).

Lemma footprint_pass c c1 out1 :
  6 <= len (readBuffer c) ->
  processFrames_body c = Again c1 out1 ->
  socket c1 = socket c /\ options c1 = options c
  /\ sessionId c1 = sessionId c /\ encoding c1 = encoding c
  /\ subscriptions c1 = subscriptions c /\ requestId c1 = requestId c
  /\ handshakeResolve c1 = handshakeResolve c
  /\ handshakeReject c1 = handshakeReject c
  /\ handshakeCompleted c1 = handshakeCompleted c
  /\ (forall k v, JsMap.get (pending c1) k = Some v ->
                  JsMap.get (pending c) k = Some v)
  /\ (forall ef, ef ∈ out1 -> inbound_effect ef).
Proof.
  intros Hlen Hbody.
  rewrite processFrames_body_cases in Hbody by exact Hlen. cbv zeta in Hbody.
  destruct (_ >? _); [discriminate|]. destruct (_ <? _); [discriminate|].
  destruct (decodeMessage _ _) as [msg|e].
  - match type of Hbody with
    | context [dispatchMessage ?c0 msg] =>
        pose proof (dispatchMessage_frame c0 msg) as Hf;
        pose proof (dispatchMessage_inbound c0 msg) as [Hp He];
        destruct (dispatchMessage c0 msg) as [c1' out1']
    end.
    injection Hbody as <- <-. cbn [fst snd] in *.
    cbn [socket options sessionId encoding subscriptions requestId
         handshakeResolve handshakeReject handshakeCompleted pending
         set_readBuffer] in *.
    intuition.
  - injection Hbody as <- <-.
    cbn [socket options sessionId encoding subscriptions requestId
         handshakeResolve handshakeReject handshakeCompleted pending
         set_readBuffer].
    repeat split; auto.
    intros ef Hef. apply list_elem_of_singleton in Hef as ->. exact I.
Qed.

Lemma processFrames_keeps c c' out :
  processFrames c = Some (c', out) -> footprint c c' out.
Proof.
  revert c c' out. apply processFrames_induction.
  - intros c Hshort. unfold footprint.
    repeat (split; [reflexivity|]).
    split; [exists 0%nat; reflexivity|]. split; [auto|].
    split; [|left; exact Hshort].
    intros ef Hef. apply not_elem_of_nil in Hef. contradiction.
  - intros c c' out Hlen Hbody.
    rewrite processFrames_body_cases in Hbody by exact Hlen.
    cbv zeta in Hbody.
    destruct (Z.gtb_spec (getUint32 (readBuffer c) 0 - 2) MAX_MESSAGE_SIZE)
      as [Hbig|_].
    + injection Hbody as <- <-. unfold footprint.
      repeat (split; [reflexivity|]).
      split; [exists 0%nat; reflexivity|]. split; [auto|]. split.
      * intros ef Hef. apply list_elem_of_singleton in Hef as ->. exact I.
      * right. left. eexists. split.
        -- unfold parseFrameHeader.
           destruct (Z.ltb_spec (len (readBuffer c)) 6) as [?|_]; [lia|].
           reflexivity.
        -- cbn [payloadLength]. lia.
    + destruct (Z.ltb_spec (len (readBuffer c))
                  (4 + getUint32 (readBuffer c) 0)) as [Hwait|_].
      * injection Hbody as <- <-. unfold footprint.
        repeat (split; [reflexivity|]).
        split; [exists 0%nat; reflexivity|]. split; [auto|]. split.
        -- intros ef Hef. apply not_elem_of_nil in Hef. contradiction.
        -- right. right. split; assumption.
      * destruct (decodeMessage _ _); [|discriminate].
        destruct (dispatchMessage _ _); discriminate.
  - intros c c1 out1 c2 out2 Hlen Hbody _ IH.
    destruct (footprint_pass c c1 out1 Hlen Hbody)
      as (H1 & H2 & H3 & H4 & H5 & H6 & H7 & H8 & H9 & Hp & He).
    destruct (processFrames_body_Again c c1 out1 Hlen Hbody) as [_ Hbuf].
    destruct IH as (I1 & I2 & I3 & I4 & I5 & I6 & I7 & I8 & I9
                    & [n In] & Ip & Ie & Iend).
    unfold footprint.
    repeat (split; [congruence|]).
    split; [|split; [|split; [|exact Iend]]].
    + eexists. rewrite In, Hbuf, drop_drop. reflexivity.
    + intros k v Hk. apply Hp, Ip, Hk.
    + intros ef Hef. apply elem_of_app in Hef as [Hef|Hef]; auto.
Qed.

(** X8. Whatever the buffer holds, [processFrames] returns, and when it
    does it has changed two fields only: the receive buffer, of which a
    suffix is left, and the Pending Request Table, to which nothing has
    been added. It has written nothing to the socket, has not closed it,
    and has settled no connect promise: its effects are requests
    fulfilled, callbacks invoked and lines on the console. What is left
    in the buffer is no complete frame: fewer than six bytes, or the
    beginning of a frame whose end has not arrived, or a header that
    declares more than the maximum message size. *)
Theorem processFrames_footprint c :
  exists c' out,
    processFrames c = Some (c', out)
    /\ socket c' = socket c /\ options c' = options c
    /\ sessionId c' = sessionId c /\ encoding c' = encoding c
    /\ subscriptions c' = subscriptions c /\ requestId c' = requestId c
    /\ handshakeResolve c' = handshakeResolve c
    /\ handshakeReject c' = handshakeReject c
    /\ handshakeCompleted c' = handshakeCompleted c
    /\ (exists n, readBuffer c' = drop n (readBuffer c))
    /\ (forall k v, JsMap.get (pending c') k = Some v ->
                    JsMap.get (pending c) k = Some v)
    /\ (forall ef, ef ∈ out -> inbound_effect ef)
    /\ (len (readBuffer c') < 6 \/ header_oversized c'
        \/ frame_incomplete c').
Proof.
  destruct (processFrames_returns c) as [[c' out] Hrun].
  exists c', out. split; [exact Hrun|].
  exact (processFrames_keeps c c' out Hrun).
Qed.

End Footprint.

Section Extraction.

Context {unknown : Type} `{!Serialisers unknown}.

Import Tcp.

Implicit Types (c : Client) (msg : ServerMessage unknown).

(** A buffer that starts with a built frame of at most the maximum
    message size. *)
Lemma built_frame_front (t : MessageType) (e : Encoding)
    (payload rest : Uint8Array) :
  len payload <= MAX_MESSAGE_SIZE ->
  let buf := buildFrame t e payload ++ rest in
  6 + len payload <= len buf
  /\ getUint32 buf 0 = len payload + 2
  /\ at_ buf 5 = Encoding_value e
  /\ slice buf 6 (6 + len payload) = payload
  /\ drop (Z.to_nat (6 + len payload)) buf = rest.
Proof.
  intros Hmax buf. pose proof (len_nonneg payload) as Hpos.
  pose proof (len_nonneg rest) as Hrest.
  unfold MAX_MESSAGE_SIZE in Hmax.
  assert (Hw' : 0 <= len payload + 2 < 2 ^ 32)
    by (change (2 ^ 32) with 4294967296; lia).
  assert (Hw : (len payload + 2) mod 2 ^ 32 = len payload + 2)
    by (apply Z.mod_small; exact Hw').
  assert (Hlen : len buf = 6 + len payload + len rest).
  { unfold buf. rewrite buildFrame_layout. cbv zeta.
    unfold len. rewrite !length_app. cbn [length]. lia. }
  unfold buf in *. rewrite buildFrame_layout in *. cbv zeta in *.
  rewrite Hw in *. clear Hw.
  split; [lia|]. split; [|split; [|split]].
  - cbn [app]. rewrite getUint32_bytes, !to_Z_of_Z.
    apply be32_value. exact Hw'.
  - unfold at_. cbn [app nth]. apply Encoding_value_byte.
  - clear Hw'. rewrite slice_inside by lia.
    replace (Z.to_nat (6 + len payload - 6)) with (length payload)
      by (unfold len; lia).
    change (Z.to_nat 6) with 6%nat. cbn [app skipn].
    apply take_app_length.
  - clear Hw'.
    replace (Z.to_nat (6 + len payload)) with (6 + length payload)%nat
      by (unfold len; lia).
    cbn [app Nat.add skipn]. apply drop_app_length.
Qed.

(** The pass of the loop over a built frame. *)
Lemma processFrames_body_built_frame c (t : MessageType) (e : Encoding)
    (payload rest : Uint8Array) :
  readBuffer c = buildFrame t e payload ++ rest ->
  len payload <= MAX_MESSAGE_SIZE ->
  6 <= len (readBuffer c)
  /\ processFrames_body c
     = match decodeMessage payload (Encoding_value e) with
       | Return msg =>
           let '(c1, out) := dispatchMessage (set_readBuffer rest c) msg in
           Again c1 out
       | Throw err =>
           Again (set_readBuffer rest c)
                 [ConsoleError ["Failed to decode message:"; message err]]
       end.
Proof.
  intros Hbuf Hmax.
  destruct (built_frame_front t e payload rest Hmax)
    as (Hlen & Hfield & Henc & Hslice & Hdrop).
  rewrite <- Hbuf in *. pose proof (len_nonneg payload) as Hpos.
  split; [lia|].
  rewrite processFrames_body_cases by lia. cbv zeta.
  rewrite Hfield, Henc.
  destruct (Z.gtb_spec (len payload + 2 - 2) MAX_MESSAGE_SIZE) as [?|_];
    [lia|].
  replace (4 + (len payload + 2)) with (6 + len payload) by lia.
  destruct (Z.ltb_spec (len (readBuffer c)) (6 + len payload)) as [?|_];
    [lia|].
  rewrite Hslice, Hdrop. reflexivity.
Qed.

(** The same pass, and the rest of the run. *)
Lemma processFrames_built_frame_aux c (t : MessageType) (e : Encoding)
    (payload rest : Uint8Array) :
  readBuffer c = buildFrame t e payload ++ rest ->
  len payload <= MAX_MESSAGE_SIZE ->
  processFrames c
  = match decodeMessage payload (Encoding_value e) with
    | Return msg =>
        let '(c1, out) := dispatchMessage (set_readBuffer rest c) msg in
        match processFrames c1 with
        | Some (c2, out2) => Some (c2, out ++ out2)
        | None => None
        end
    | Throw err =>
        match processFrames (set_readBuffer rest c) with
        | Some (c2, out2) =>
            Some (c2, ConsoleError ["Failed to decode message:"; message err]
                        :: out2)
        | None => None
        end
    end.
Proof.
  intros Hbuf Hmax.
  destruct (processFrames_body_built_frame c t e payload rest Hbuf Hmax)
    as [Hlen Hbody].
  rewrite processFrames_unfold, Hbody.
  destruct (Z.geb_spec (len (readBuffer c)) 6) as [_|?]; [|lia].
  destruct (decodeMessage payload (Encoding_value e)) as [msg|err].
  - destruct (dispatchMessage (set_readBuffer rest c) msg) as [c1 out].
    reflexivity.
  - reflexivity.
Qed.

(** X6. A built frame at the front of the buffer is taken off whole. When
    the buffer starts with the frame built from a payload of at most the
    maximum message size, [processFrames] hands exactly that payload to
    the decoder under the encoding of the frame. It dispatches the message
    decoded, or logs the failure when the decoder throws, and in both
    cases goes on with the bytes behind the frame: a frame that fails to
    decode does not stop the session. The message type of the frame plays
    no part: the same frame built with another message type is processed
    to the same client and the same effects. *)
Theorem processFrames_built_frame c (t : MessageType) (e : Encoding)
    (payload rest : Uint8Array) :
  readBuffer c = buildFrame t e payload ++ rest ->
  len payload <= MAX_MESSAGE_SIZE ->
  processFrames c
  = match decodeMessage payload (Encoding_value e) with
    | Return msg =>
        let '(c1, out) := dispatchMessage (set_readBuffer rest c) msg in
        match processFrames c1 with
        | Some (c2, out2) => Some (c2, out ++ out2)
        | None => None
        end
    | Throw err =>
        match processFrames (set_readBuffer rest c) with
        | Some (c2, out2) =>
            Some (c2, ConsoleError ["Failed to decode message:"; message err]
                        :: out2)
        | None => None
        end
    end
  /\ forall t' : MessageType,
       processFrames (set_readBuffer (buildFrame t' e payload ++ rest) c)
       = processFrames c.
Proof.
  intros Hbuf Hmax.
  assert (Hrun : forall (c0 : Client) (t0 : MessageType),
    readBuffer c0 = buildFrame t0 e payload ++ rest ->
    processFrames c0
    = match decodeMessage payload (Encoding_value e) with
      | Return msg =>
          let '(c1, out) := dispatchMessage (set_readBuffer rest c0) msg in
          match processFrames c1 with
          | Some (c2, out2) => Some (c2, out ++ out2)
          | None => None
          end
      | Throw err =>
          match processFrames (set_readBuffer rest c0) with
          | Some (c2, out2) =>
              Some (c2,
                    ConsoleError ["Failed to decode message:"; message err]
                      :: out2)
          | None => None
          end
      end).
  { intros c0 t0 Hbuf0.
    destruct (processFrames_body_built_frame c0 t0 e payload rest Hbuf0 Hmax)
      as [Hlen Hbody].
    rewrite processFrames_unfold, Hbody.
    destruct (Z.geb_spec (len (readBuffer c0)) 6) as [_|?]; [|lia].
    destruct (decodeMessage payload (Encoding_value e)) as [msg|err].
    - destruct (dispatchMessage (set_readBuffer rest c0) msg) as [c1 out].
      reflexivity.
    - reflexivity. }
  split; [exact (Hrun c t Hbuf)|].
  intros t'.
  rewrite (Hrun (set_readBuffer (buildFrame t' e payload ++ rest) c) t')
    by reflexivity.
  rewrite (Hrun c t Hbuf). reflexivity.
Qed.

(** A strict prefix of a built frame holds no complete frame. *)
Lemma processFrames_prefix c (t : MessageType) (e : Encoding)
    (payload a b : Uint8Array) :
  len payload <= MAX_MESSAGE_SIZE ->
  buildFrame t e payload = a ++ b -> b <> [] ->
  readBuffer c = a ->
  processFrames c = Some (c, []).
Proof.
  intros Hmax Hsplit Hb Hbuf.
  destruct (built_frame_front t e payload [] Hmax)
    as (_ & Hfield & _). rewrite app_nil_r, Hsplit in Hfield.
  assert (Hlen : len a < 6 + len payload).
  { assert (Hframe : len (a ++ b) = 6 + len payload).
    { rewrite <- Hsplit, buildFrame_layout. cbv zeta.
      unfold len. rewrite length_app. cbn [length]. lia. }
    rewrite len_app in Hframe.
    assert (0 < len b); [|lia].
    destruct b; [contradiction|]. unfold len. cbn [length]. lia. }
  rewrite processFrames_unfold, Hbuf.
  destruct (Z.geb_spec (len a) 6) as [Hhdr|_]; [|reflexivity].
  rewrite processFrames_body_cases by (rewrite Hbuf; exact Hhdr).
  cbv zeta. rewrite Hbuf.
  rewrite getUint32_app in Hfield by lia. rewrite Hfield.
  unfold MAX_MESSAGE_SIZE in *.
  destruct (Z.gtb_spec (len payload + 2 - 2) (16 * 1024 * 1024)) as [?|_];
    [lia|].
  destruct (Z.ltb_spec (len a) (4 + (len payload + 2))) as [_|?]; [|lia].
  reflexivity.
Qed.

(** X5. Partial-frame buffering. When the frame built from a payload of
    at most the maximum message size reaches a Ready client with an empty
    buffer in two chunks, the first chunk, which may stop anywhere short
    of the last byte, is buffered and nothing else happens; the second
    chunk completes the frame, the payload is decoded and dispatched
    once, and the buffer is empty again. *)
Theorem partial_frame_buffering c (t : MessageType) (e : Encoding)
    (payload a b : Uint8Array) :
  handshakeCompleted c = true ->
  readBuffer c = [] ->
  len payload <= MAX_MESSAGE_SIZE ->
  buildFrame t e payload = a ++ b -> b <> [] ->
  handleData c a = Some (set_readBuffer a c, [])
  /\ handleData (set_readBuffer a c) b
     = Some match decodeMessage payload (Encoding_value e) with
            | Return msg => dispatchMessage (set_readBuffer [] c) msg
            | Throw err =>
                (set_readBuffer [] c,
                 [ConsoleError ["Failed to decode message:"; message err]])
            end.
Proof.
  intros Hready Hempty Hmax Hsplit Hb. split.
  - unfold handleData. rewrite Hempty. cbn [app].
    cbn [handshakeCompleted set_readBuffer]. rewrite Hready. cbn [negb].
    apply (processFrames_prefix _ t e payload a b); auto.
  - unfold handleData.
    cbn [handshakeCompleted readBuffer set_readBuffer].
    rewrite Hready. cbn [negb].
    change (set_readBuffer (a ++ b) (set_readBuffer a c))
      with (set_readBuffer (a ++ b) c).
    rewrite (processFrames_built_frame_aux
               (set_readBuffer (a ++ b) c) t e payload []);
      [|cbn [readBuffer set_readBuffer]; rewrite app_nil_r; auto|exact Hmax].
    change (set_readBuffer [] (set_readBuffer (a ++ b) c))
      with (set_readBuffer [] c).
    destruct (decodeMessage payload (Encoding_value e)) as [msg|err].
    + destruct (dispatchMessage _ msg) as [c1 out] eqn:Hd.
      apply dispatchMessage_readBuffer in Hd as Hbuf.
      cbn [readBuffer set_readBuffer] in Hbuf.
      rewrite processFrames_unfold, Hbuf.
      change (len [] >=? 6) with false. cbv iota.
      rewrite app_nil_r. reflexivity.
    + rewrite processFrames_unfold. cbn [readBuffer set_readBuffer].
      change (len [] >=? 6) with false. reflexivity.
Qed.

End Extraction.

Section Chunking.

Context {unknown : Type} `{!Serialisers unknown}.

Import Tcp.

Implicit Types (c : Client) (msg : ServerMessage unknown).

Lemma slice_app_l (a b : Uint8Array) (i j : Z) :
  0 <= i <= len a -> 0 <= j <= len a ->
  slice (a ++ b) i j = slice a i j.
Proof.
  intros Hi Hj. pose proof (len_nonneg b).
  rewrite !slice_inside by (rewrite ?len_app; lia).
  unfold len in *.
  rewrite drop_app_le by lia.
  rewrite take_app_le by (rewrite length_drop; lia). reflexivity.
Qed.

(** [dispatchMessage] does not look at the receive buffer. *)
Lemma dispatchMessage_set_readBuffer c msg (buffer : Uint8Array) :
  dispatchMessage (set_readBuffer buffer c) msg
  = (set_readBuffer buffer (dispatchMessage c msg).1,
     (dispatchMessage c msg).2).
Proof.
  unfold dispatchMessage.
  destruct msg; cbn [id_ subscriptions pending set_readBuffer];
    repeat match goal with
           | |- context [match ?x with _ => _ end] => destruct x
           end;
    reflexivity.
Qed.

(** A pass that takes a frame off the buffer does the same when more
    bytes follow the buffer. *)
Lemma processFrames_body_append c c1 out1 (extra : Uint8Array) :
  6 <= len (readBuffer c) ->
  processFrames_body c = Again c1 out1 ->
  processFrames_body (set_readBuffer (readBuffer c ++ extra) c)
  = Again (set_readBuffer (readBuffer c1 ++ extra) c1) out1.
Proof.
  intros Hlen Hbody. pose proof (len_nonneg extra) as Hextra.
  pose proof (getUint32_range (readBuffer c)) as Hrange.
  rewrite processFrames_body_cases in Hbody by exact Hlen.
  rewrite processFrames_body_cases
    by (cbn [readBuffer set_readBuffer]; rewrite len_app; lia).
  cbv zeta in *. cbn [readBuffer set_readBuffer].
  rewrite getUint32_app by lia.
  destruct (_ >? _); [discriminate|].
  destruct (Z.ltb_spec (len (readBuffer c))
              (4 + getUint32 (readBuffer c) 0)) as [?|Hfits];
    [discriminate|].
  destruct (Z.ltb_spec (len (readBuffer c ++ extra))
              (4 + getUint32 (readBuffer c) 0)) as [Hshort|_];
    [rewrite len_app in Hshort; lia|].
  rewrite slice_app_l by lia.
  replace (at_ (readBuffer c ++ extra) 5) with (at_ (readBuffer c) 5)
    by (unfold at_, len in *; rewrite app_nth1 by lia; reflexivity).
  rewrite drop_app_le by (unfold len in *; lia).
  destruct (decodeMessage _ _) as [msg|e].
  - change (set_readBuffer
              (drop (Z.to_nat (4 + getUint32 (readBuffer c) 0))
                    (readBuffer c) ++ extra)
              (set_readBuffer (readBuffer c ++ extra) c))
      with (set_readBuffer
              (drop (Z.to_nat (4 + getUint32 (readBuffer c) 0))
                    (readBuffer c) ++ extra) c).
    rewrite dispatchMessage_set_readBuffer.
    rewrite (dispatchMessage_set_readBuffer c msg) in Hbody.
    destruct (dispatchMessage c msg) as [c' out']. cbn [fst snd] in *.
    injection Hbody as <- <-. reflexivity.
  - injection Hbody as <- <-. reflexivity.
Qed.

Lemma processFrames_append c c1 out1 :
  processFrames c = Some (c1, out1) ->
  ~ header_oversized c1 ->
  forall extra : Uint8Array,
    processFrames (set_readBuffer (readBuffer c ++ extra) c)
    = match processFrames (set_readBuffer (readBuffer c1 ++ extra) c1) with
      | Some (c2, out2) => Some (c2, out1 ++ out2)
      | None => None
      end.
Proof.
  revert c c1 out1. apply (processFrames_induction
    (fun c c1 out1 =>
       ~ header_oversized c1 ->
       forall extra : Uint8Array,
         processFrames (set_readBuffer (readBuffer c ++ extra) c)
         = match processFrames
                   (set_readBuffer (readBuffer c1 ++ extra) c1) with
           | Some (c2, out2) => Some (c2, out1 ++ out2)
           | None => None
           end)).
  - intros c _ _ extra. destruct (processFrames _) as [[c2 out2]|];
      reflexivity.
  - intros c c' out Hlen Hbody Hok extra.
    rewrite processFrames_body_cases in Hbody by exact Hlen.
    cbv zeta in Hbody.
    destruct (Z.gtb_spec (getUint32 (readBuffer c) 0 - 2) MAX_MESSAGE_SIZE)
      as [Hbig|_].
    + injection Hbody as <- <-. exfalso. apply Hok. eexists. split.
      * unfold parseFrameHeader.
        destruct (Z.ltb_spec (len (readBuffer c)) 6) as [?|_]; [lia|].
        reflexivity.
      * cbn [payloadLength]. lia.
    + destruct (_ <? _).
      * injection Hbody as <- <-.
        destruct (processFrames _) as [[c2 out2]|]; reflexivity.
      * destruct (decodeMessage _ _); [|discriminate].
        destruct (dispatchMessage _ _); discriminate.
  - intros c c1 out1 c2 out2 Hlen Hbody _ IH Hok extra.
    rewrite processFrames_unfold. cbn [readBuffer set_readBuffer].
    pose proof (len_nonneg extra) as Hextra.
    destruct (Z.geb_spec (len (readBuffer c ++ extra)) 6) as [_|Hshort];
      [|rewrite len_app in Hshort; lia].
    rewrite (processFrames_body_append c c1 out1) by assumption.
    rewrite (IH Hok extra).
    destruct (processFrames _) as [[c3 out3]|]; [|reflexivity].
    rewrite app_assoc. reflexivity.
Qed.

(** X7. Frame extraction does not depend on how the stream is cut into
    chunks. For a Ready client, delivering [a] and then [b] gives the
    same client and the same effects, in the same order, as delivering
    [a ++ b] at once, provided the bytes left in the buffer after [a] do
    not start with a header that declares more than the maximum message
    size (which is logged once for each chunk that arrives). *)
Theorem chunking_independence c c1 out1 (a b : Uint8Array) :
  handshakeCompleted c = true ->
  handleData c a = Some (c1, out1) ->
  ~ header_oversized c1 ->
  handleData c (a ++ b)
  = match handleData c1 b with
    | Some (c2, out2) => Some (c2, out1 ++ out2)
    | None => None
    end.
Proof.
  intros Hready Hfirst Hok. unfold handleData in *.
  cbn [handshakeCompleted set_readBuffer] in *.
  rewrite Hready in *. cbn [negb] in *.
  pose proof (processFrames_keeps _ _ _ Hfirst) as Hkeep.
  destruct Hkeep as (_ & _ & _ & _ & _ & _ & _ & _ & Hc1 & _).
  cbn [handshakeCompleted set_readBuffer] in Hc1.
  rewrite Hc1, Hready. cbn [negb].
  rewrite app_assoc.
  apply (processFrames_append (set_readBuffer (readBuffer c ++ a) c)
           c1 out1 Hfirst Hok b).
Qed.

End Chunking.

Lemma processFrames_built_frame_witness :
  let c := ready_client (buildFrame Response Json [x7b; x7d] ++ [x00]) in
  Tcp.processFrames c
  = Some (Tcp.set_readBuffer [x00] c,
          [Tcp.ConsoleError ["Failed to decode message:"%string;
                             "Unexpected end of JSON input"%string]]).
Proof.
  intros c.
  rewrite (proj1 (processFrames_built_frame (unknown := Z) c Response Json
                    [x7b; x7d] [x00] eq_refl
                    ltac:(vm_compute; discriminate))).
  reflexivity.
Defined.

Lemma partial_frame_buffering_witness :
  let c := ready_client [] in
  Tcp.handleData c [x00; x00; x00; x04; x02; x02; x7b]
  = Some (Tcp.set_readBuffer [x00; x00; x00; x04; x02; x02; x7b] c,
          @nil (@Tcp.Effect Z)).
Proof.
  intros c.
  apply (partial_frame_buffering (unknown := Z) c Response Json [x7b; x7d]
           [x00; x00; x00; x04; x02; x02; x7b] [x7d]).
  - reflexivity.
  - reflexivity.
  - vm_compute. discriminate.
  - reflexivity.
  - discriminate.
Defined.

Lemma chunking_independence_witness :
  let c := ready_client [] in
  Tcp.handleData c ([x00; x00; x00; x04] ++ [x02; x02; x7b; x7d])
  = match Tcp.handleData
            (Tcp.set_readBuffer [x00; x00; x00; x04] c)
            [x02; x02; x7b; x7d] with
    | Some (c2, out2) => Some (c2, @nil (@Tcp.Effect Z) ++ out2)
    | None => None
    end.
Proof.
  intros c.
  apply (chunking_independence (unknown := Z) c).
  - reflexivity.
  - reflexivity.
  - intros (header & Hparse & _). discriminate Hparse.
Defined.

Section Requests.

Context {unknown : Type} `{!Serialisers unknown}.

Import Tcp.

Implicit Types (c : Client) (msg : ClientMessage unknown)
  (resp : ServerMessage unknown).

Lemma delete_set {V : Type} (m : JsMap.t V) (k : string) (v : V) :
  JsMap.delete (JsMap.set m k v) k = JsMap.delete m k.
Proof.
  induction m as [|[k' v'] m IH]; cbn [JsMap.set JsMap.delete].
  - destruct (decide (k = k)); [reflexivity|contradiction].
  - destruct (decide (k' = k)) as [->|Hne]; cbn [JsMap.delete].
    + destruct (decide (k = k)); [reflexivity|contradiction].
    + destruct (decide (k' = k)); [contradiction|]. rewrite IH.
      reflexivity.
Qed.

Lemma set_pending_same c : set_pending (pending c) c = c.
Proof. destruct c; reflexivity. Qed.

(** [send] on a client whose field [socket] is set. *)
Lemma send_connected c msg p :
  socket c <> None ->
  send c msg p
  = (set_pending (JsMap.set (pending c) (request_id msg)
                            {| resolve := p; reject := p |}) c,
     [Reject p (TypeError_not_a_function "this.socket.write")]).
Proof.
  intros Hsock. unfold send. destruct (socket c) as [[]|]; [reflexivity|].
  contradiction.
Qed.

(** The response to a request just sent. *)
Lemma dispatch_after_send c msg p resp :
  socket c <> None ->
  type_ resp <> "change"%string ->
  id_ resp = request_id msg ->
  dispatchMessage (send c msg p).1 resp
  = (set_pending (JsMap.delete (pending c) (request_id msg)) c,
     [Resolve p resp]).
Proof.
  intros Hsock Htag Hid.
  rewrite send_connected by exact Hsock. cbn [fst].
  rewrite dispatchMessage_response by exact Htag.
  cbn [pending set_pending]. rewrite Hid, get_set_eq, delete_set.
  reflexivity.
Qed.

(** X9. Request and response are correlated by id. On a client that has a
    socket, a response that is no change notification and carries the id
    of a request just sent calls the [resolve] function of the promise
    [send] returned for that request, with that response, and takes the
    request off the Pending Request Table; when no other request was
    pending under that id the client is then exactly as it was before the
    request was sent. *)
Theorem request_response_correlation c msg p resp :
  socket c <> None ->
  type_ resp <> "change"%string ->
  id_ resp = request_id msg ->
  dispatchMessage (send c msg p).1 resp
  = (set_pending (JsMap.delete (pending c) (request_id msg)) c,
     [Resolve p resp])
  /\ (JsMap.get (pending c) (request_id msg) = None ->
      (dispatchMessage (send c msg p).1 resp).1 = c).
Proof.
  intros Hsock Htag Hid.
  pose proof (dispatch_after_send c msg p resp Hsock Htag Hid) as Hd.
  split; [exact Hd|].
  intros Hfresh. rewrite Hd. cbn [fst].
  rewrite delete_absent by exact Hfresh. apply set_pending_same.
Qed.


End Requests.

Lemma request_response_correlation_witness :
  let c := ready_client [] in
  Tcp.dispatchMessage
    (Tcp.send c (@C_ping Z "5") (Tcp.request_promise 5)).1
    (@S_pong Z "5")
  = (Tcp.set_pending (JsMap.delete (Tcp.pending c) "5") c,
     [Tcp.Resolve (Tcp.request_promise 5) (S_pong "5")]).
Proof.
  intros c.
  apply (request_response_correlation (unknown := Z) c (C_ping "5")
           (Tcp.request_promise 5) (S_pong "5")).
  - discriminate.
  - discriminate.
  - reflexivity.
Defined.


Section Lifecycle.

Context {unknown : Type} `{!Serialisers unknown}.

Import Tcp.

Implicit Types (c : Client) (msg : ClientMessage unknown)
  (resp : ServerMessage unknown).

Local Abbreviation close := (@Tcp.close unknown).
Local Abbreviation handleClose := (@Tcp.handleClose unknown).

Lemma set_subscriptions_same c : set_subscriptions (subscriptions c) c = c.
Proof. destruct c; reflexivity. Qed.



(** X13. The life of a subscription. Once [subscribe] has been resumed
    with a response that is no [error], a change notification carrying
    the id of the subscribe request invokes the callback, once, with the
    change, and the other subscriptions are as they were; after
    [unsubscribe] for that id the same notification invokes nothing and
    the Subscription Table no longer has the id. Resumed with an [error]
    response or with a rejection, [subscribe] registers nothing. *)
Theorem subscription_lifecycle c (id : string) (f : Callback) resp
    (change : ChangeEvent unknown) :
  type_ resp <> "error"%string ->
  let c1 := (subscribe_resume c id f (Fulfilled resp)).1 in
  let c2 := (@unsubscribe unknown _ c1 id).1.1 in
  dispatchMessage c1 (S_change id change) = (c1, [Invoke f change])
  /\ (forall id', id' <> id ->
                  subscriptions c1 !! id' = subscriptions c !! id')
  /\ dispatchMessage c2 (S_change id change) = (c2, [])
  /\ subscriptions c2 = base.delete id (subscriptions c)
  /\ (forall rid text,
        subscribe_resume c id f (Fulfilled (@S_error unknown rid text))
        = (c, Throw (Error text)))
  /\ (forall err,
        @subscribe_resume unknown c id f (Rejected err) = (c, Throw err)).
Proof.
  intros Htag c1 c2.
  assert (Hc1 : c1 = set_subscriptions
                       (<[id := {| callback := f |}]> (subscriptions c)) c).
  { unfold c1. destruct resp; try reflexivity.
    exfalso. apply Htag. reflexivity. }
  assert (Hc2 : subscriptions c2 = base.delete id (subscriptions c)).
  { unfold c2, unsubscribe. rewrite Hc1.
    cbn [socket subscriptions set_subscriptions].
    destruct (socket c) as [[]|];
      cbn [fst subscriptions set_subscriptions];
      apply delete_insert_eq. }
  split; [|split; [|split; [|split; [|split]]]].
  - cbn [dispatchMessage]. rewrite Hc1 at 1.
    cbn [subscriptions set_subscriptions]. rewrite lookup_insert_eq.
    reflexivity.
  - intros id' Hne. rewrite Hc1. cbn [subscriptions set_subscriptions].
    apply lookup_insert_ne. congruence.
  - cbn [dispatchMessage]. rewrite Hc2, lookup_delete_eq. reflexivity.
  - exact Hc2.
  - reflexivity.
  - reflexivity.
Qed.

End Lifecycle.



Lemma subscription_lifecycle_witness :
  let c := ready_client [] in
  let f := Tcp.user_function 7 in
  let change := E_delete {| doc_id := "d"; collection := "users"; data := 0;
                            created_at := "t0"; updated_at := "t1" |} in
  let c1 := (Tcp.subscribe_resume c "7" f
               (Tcp.Fulfilled (@S_subscribed Z "7"))).1 in
  Tcp.dispatchMessage c1 (S_change "7" change) = (c1, [Tcp.Invoke f change]).
Proof.
  intros c f change c1.
  apply (subscription_lifecycle (unknown := Z) c "7" f (S_subscribed "7")
           change).
  discriminate.
Defined.

Section Handshake.

Context {unknown : Type} `{!Serialisers unknown}.

Import Tcp.

Implicit Types (c : Client).

(** The first 19 bytes of the buffer, read as a handshake response, and
    what follows them. *)
Lemma handshake_response_front (b0 b1 b2 : byte) (sid rest : Uint8Array) :
  length sid = 16%nat ->
  let buffer := b0 :: b1 :: b2 :: sid ++ rest in
  len buffer >= 19
  /\ parseHandshakeResponse (slice buffer 0 19)
     = Return {| status := to_Z b0; version := to_Z b1;
                 flags := byteToFlags (to_Z b2);
                 Protocol.sessionId := sid |}
  /\ slice_from buffer 19 = rest.
Proof.
  intros Hsid buffer. pose proof (len_nonneg rest) as Hrest.
  assert (Hlen : len buffer = 19 + len rest).
  { unfold buffer, len. cbn [length]. rewrite length_app. lia. }
  assert (Hfront : slice buffer 0 19 = b0 :: b1 :: b2 :: sid).
  { rewrite slice_inside by lia. unfold buffer.
    change (Z.to_nat 0) with 0%nat. change (Z.to_nat (19 - 0)) with 19%nat.
    rewrite drop_0. cbn [firstn]. do 3 f_equal.
    apply take_app_length'. symmetry. exact Hsid. }
  split; [lia|]. split.
  - rewrite Hfront. unfold parseHandshakeResponse.
    assert (Hfl : len (b0 :: b1 :: b2 :: sid) = 19)
      by (unfold len; cbn [length]; lia).
    rewrite Hfl. change (19 <? 19) with false. cbv iota.
    unfold at_. cbn [nth]. rewrite slice_inside by lia.
    change (Z.to_nat 3) with 3%nat. change (Z.to_nat (19 - 3)) with 16%nat.
    cbn [skipn]. rewrite drop_0.
    rewrite take_ge by lia. reflexivity.
  - rewrite slice_from_inside by lia. unfold buffer.
    change (Z.to_nat 19) with (3 + 16)%nat. cbn [Nat.add skipn].
    rewrite <- Hsid. apply drop_app_length.
Qed.

(** X14. The handshake completes on status 0. When the bytes received
    before the handshake has completed begin with a 19-byte response whose
    status byte is 0, the client becomes Ready: it calls the
    [handshakeResolve] function, takes the session id from bytes 3 to 18,
    rendered as a UUID, and the encoding from bit 0 of the flags byte
    (binary when set, JSON otherwise), whatever the version byte says.
    The bytes behind the response stay in the buffer and no frame among
    them is processed by that call; no request and no subscription is
    touched. *)
Theorem handshake_completes c (data : Uint8Array) (b0 b1 b2 : byte)
    (sid rest : Uint8Array) :
  handshakeCompleted c = false ->
  readBuffer c ++ data = b0 :: b1 :: b2 :: sid ++ rest ->
  length sid = 16%nat ->
  to_Z b0 = HandshakeStatus.Success ->
  exists c',
    handleData c data = Some (c', handshakeResolve_opt c)
    /\ handshakeCompleted c' = true
    /\ sessionId c' = Some (uuidToString sid)
    /\ encoding c' = (if Z.testbit (to_Z b2) 0 then MessagePack else Json)
    /\ readBuffer c' = rest
    /\ pending c' = pending c
    /\ subscriptions c' = subscriptions c
    /\ socket c' = socket c.
Proof.
  intros Hwait Hbuf Hsid Hok.
  destruct (handshake_response_front b0 b1 b2 sid rest Hsid)
    as (Hlen & Hparse & Hrest).
  unfold handleData. cbn [handshakeCompleted readBuffer set_readBuffer].
  rewrite Hwait, Hbuf. cbn [negb].
  destruct (Z.geb_spec (len (b0 :: b1 :: b2 :: sid ++ rest)) 19) as [_|?];
    [|lia].
  rewrite Hparse, Hrest. cbn [status version flags Protocol.sessionId].
  rewrite Hok. cbn [Z.eqb HandshakeStatus.Success
                    HandshakeStatus.VersionMismatch
                    HandshakeStatus.AuthFailed negb].
  eexists. split; [reflexivity|].
  cbn [handshakeCompleted sessionId encoding readBuffer pending
       subscriptions socket set_handshakeCompleted set_encoding
       set_sessionId set_readBuffer].
  rewrite byteToFlags_bits. cbn [messagepack]. repeat split.
Qed.

(** X15. The handshake fails on every other status. When the response
    carries a status other than 0, the client calls the [handshakeReject]
    function with "Version mismatch: server=<version byte>, client=1" for
    status 1, "Authentication failed" for status 2 and "Unexpected
    status: <status>" otherwise. It takes the 19 bytes off the buffer and
    changes nothing else: the handshake stays incomplete and the socket
    is neither ended nor forgotten. *)
Theorem handshake_fails c (data : Uint8Array) (b0 b1 b2 : byte)
    (sid rest : Uint8Array) :
  handshakeCompleted c = false ->
  readBuffer c ++ data = b0 :: b1 :: b2 :: sid ++ rest ->
  length sid = 16%nat ->
  to_Z b0 <> HandshakeStatus.Success ->
  handleData c data
  = Some (set_readBuffer rest c,
          handshakeReject_opt c
            (Error
               (if to_Z b0 =? 1 then
                  "Version mismatch: server=" +:+ num (to_Z b1)
                  +:+ ", client=" +:+ num PROTOCOL_VERSION
                else if to_Z b0 =? 2 then "Authentication failed"
                else "Unexpected status: " +:+ num (to_Z b0)))).
Proof.
  intros Hwait Hbuf Hsid Hbad.
  destruct (handshake_response_front b0 b1 b2 sid rest Hsid)
    as (Hlen & Hparse & Hrest).
  unfold handleData. cbn [handshakeCompleted readBuffer set_readBuffer].
  rewrite Hwait, Hbuf. cbn [negb].
  destruct (Z.geb_spec (len (b0 :: b1 :: b2 :: sid ++ rest)) 19) as [_|?];
    [|lia].
  rewrite Hparse, Hrest. cbn [status version flags Protocol.sessionId].
  unfold HandshakeStatus.VersionMismatch, HandshakeStatus.AuthFailed,
    HandshakeStatus.Success in *.
  change (set_readBuffer rest (set_readBuffer (b0 :: b1 :: b2 :: sid ++ rest) c))
    with (set_readBuffer rest c).
  destruct (Z.eqb_spec (to_Z b0) 1) as [_|_]; [reflexivity|].
  destruct (Z.eqb_spec (to_Z b0) 2) as [_|_]; [reflexivity|].
  destruct (Z.eqb_spec (to_Z b0) 0) as [?|_]; [contradiction|].
  reflexivity.
Qed.

End Handshake.

Lemma handshake_completes_witness :
  let c := Api.connect default_options (Tcp.connect_promise 0) in
  exists c',
    Tcp.handleData c
      [x00; x01; x02; x55; x0e; x84; x00; xe2; x9b; x41; xd4;
       xa7; x16; x44; x66; x55; x44; x00; x00; xff]
    = Some (c', [@Tcp.ResolveConnect Z (Tcp.connect_promise 0)])
    /\ Tcp.sessionId c'
       = Some (uuidToString [x55; x0e; x84; x00; xe2; x9b; x41; xd4;
                             xa7; x16; x44; x66; x55; x44; x00; x00])
    /\ Tcp.encoding c' = Json
    /\ Tcp.readBuffer c' = [xff].
Proof.
  intros c.
  destruct (handshake_completes (unknown := Z) c
              [x00; x01; x02; x55; x0e; x84; x00; xe2; x9b; x41; xd4;
               xa7; x16; x44; x66; x55; x44; x00; x00; xff]
              x00 x01 x02
              [x55; x0e; x84; x00; xe2; x9b; x41; xd4;
               xa7; x16; x44; x66; x55; x44; x00; x00] [xff])
    as (c' & Hrun & _ & Hid & Henc & Hbuf & _);
    try reflexivity.
  exists c'. repeat split; assumption.
Defined.

Lemma handshake_fails_witness :
  let c := Api.connect default_options (Tcp.connect_promise 0) in
  Tcp.handleData c
    [x02; x01; x01; x00; x00; x00; x00; x00; x00; x00; x00;
     x00; x00; x00; x00; x00; x00; x00; x00]
  = Some (Tcp.set_readBuffer [] c,
          [@Tcp.RejectConnect Z (Tcp.connect_promise 0)
             (Error "Authentication failed")]).
Proof.
  intros c.
  apply (handshake_fails (unknown := Z) c
           [x02; x01; x01; x00; x00; x00; x00; x00; x00; x00; x00;
            x00; x00; x00; x00; x00; x00; x00; x00]
           x02 x01 x01
           [x00; x00; x00; x00; x00; x00; x00; x00;
            x00; x00; x00; x00; x00; x00; x00; x00] []);
    try reflexivity.
  vm_compute. discriminate.
Defined.

Section RequestIds.

Context {unknown : Type} `{!Serialisers unknown}.

Import Tcp Api.

Implicit Types (c : Client).

Lemma num_inj (n m : Z) : num n = num m -> n = m.
Proof. unfold num. apply pretty_Z_inj. Qed.

(** Drawing an id and sending a request under it. *)
Lemma send_nextId_issued c (mk : string -> ClientMessage unknown)
    (p : RequestPromise) :
  (forall id, request_id (mk id) = id) ->
  pending_ids_issued c ->
  pending_ids_issued (send (nextId c).1 (mk (nextId c).2) p).1.
Proof.
  intros Hmk [Hpos Hids]. unfold nextId. cbn [fst snd].
  unfold send. cbn [socket set_requestId requestId].
  destruct (socket c) as [[]|]; cbn [fst]; split;
    cbn [requestId pending set_pending set_requestId]; try lia.
  - intros k v Hk. rewrite Hmk in Hk.
    destruct (decide (num (requestId c + 1) = k)) as [<-|Hne].
    + exists (requestId c + 1). split; [lia|reflexivity].
    + rewrite get_set_ne in Hk by exact Hne.
      destruct (Hids k v Hk) as (n & Hn & ->). exists n. split; [lia|].
      reflexivity.
  - intros k v Hk. destruct (Hids k v Hk) as (n & Hn & ->).
    exists n. split; [lia|reflexivity].
Qed.

Lemma pending_ids_issued_shrink c c' :
  requestId c' = requestId c ->
  (forall k v, JsMap.get (pending c') k = Some v ->
               JsMap.get (pending c) k = Some v) ->
  pending_ids_issued c -> pending_ids_issued c'.
Proof.
  intros Hid Hsub [Hpos Hids]. split; [lia|].
  intros k v Hk. rewrite Hid. apply (Hids k v), Hsub, Hk.
Qed.

Lemma handleData_pending c (data : Uint8Array) c' out :
  handleData c data = Some (c', out) ->
  requestId c' = requestId c
  /\ forall k v, JsMap.get (pending c') k = Some v ->
                 JsMap.get (pending c) k = Some v.
Proof.
  unfold handleData. cbn [handshakeCompleted readBuffer set_readBuffer].
  destruct (handshakeCompleted c); cbn [negb].
  - intros Hrun. apply processFrames_keeps in Hrun.
    destruct Hrun as (_ & _ & _ & _ & _ & Hid & _ & _ & _ & _ & Hp & _).
    split; [exact Hid|exact Hp].
  - destruct (_ >=? _); [|intros [= <- <-]; split; auto].
    destruct (parseHandshakeResponse _) as [response|e];
      [|intros [= <- <-]; split; auto].
    repeat (destruct (_ =? _); cbn [negb];
            [intros [= <- <-]; split; auto|]).
    intros [= <- <-]; split; auto.
Qed.

Lemma exec_pending_ids_issued c (call : Call) c' out :
  exec c call = Some (c', out) ->
  pending_ids_issued c -> pending_ids_issued c'.
Proof.
  intros Hexec Hc.
  destruct call as [q p|q p|q p|id f r|sid|coll dat p|coll doc dat p
                   |coll doc p|p|p| |ev];
    cbn [exec] in Hexec;
    try first
      [injection Hexec as <- _
      |injection Hexec as Hexec; apply (f_equal fst) in Hexec;
       cbn [fst] in Hexec; subst c'].
  - apply (send_nextId_issued c (fun id => C_query id q) p); auto.
  - apply (send_nextId_issued c (fun id => C_query id q) p); auto.
  - apply (send_nextId_issued c (fun id => C_subscribe id q) p); auto.
  - apply (pending_ids_issued_shrink c); [| |exact Hc];
      destruct r as [[]|]; cbn; auto.
  - apply (pending_ids_issued_shrink c); [| |exact Hc];
      unfold unsubscribe; cbn [socket set_subscriptions];
      destruct (socket c) as [[]|]; cbn; auto.
  - apply (send_nextId_issued c (fun id => C_insert id coll dat) p); auto.
  - apply (send_nextId_issued c (fun id => C_update id coll doc dat) p);
      auto.
  - apply (send_nextId_issued c (fun id => C_delete id coll doc) p); auto.
  - apply (send_nextId_issued c (fun id => C_listcollections id) p); auto.
  - apply (send_nextId_issued c (fun id => C_ping id) p); auto.
  - apply (pending_ids_issued_shrink c); [| |exact Hc];
      unfold close; cbn [socket set_subscriptions];
      destruct (socket c) as [[]|]; cbn; auto.
  - destruct ev as [|data| |error]; cbn [handle] in Hexec.
    + injection Hexec as <- _. exact Hc.
    + destruct (handleData_pending c data c' out Hexec) as [Hid Hp].
      apply (pending_ids_issued_shrink c); assumption.
    + injection Hexec as <- _.
      apply (pending_ids_issued_shrink c); [reflexivity| |exact Hc].
      cbn. discriminate.
    + destruct (handshakeCompleted c); cbn [negb] in Hexec;
        injection Hexec as <- _; exact Hc.
Qed.

Lemma execAll_pending_ids_issued (calls : list Call) c c' out :
  execAll c calls = Some (c', out) ->
  pending_ids_issued c -> pending_ids_issued c'.
Proof.
  revert c out. induction calls as [|call calls IH]; intros c out Hrun Hc.
  - injection Hrun as <- _. exact Hc.
  - cbn [execAll] in Hrun.
    destruct (exec c call) as [[c1 out1]|] eqn:Hexec; [|discriminate].
    destruct (execAll c1 calls) as [[c2 out2]|] eqn:Hrest; [|discriminate].
    injection Hrun as <- _.
    apply (IH c1 out2 Hrest).
    apply (exec_pending_ids_issued c call c1 out1 Hexec Hc).
Qed.

(** X16. Request ids are never reused. In every state a client reaches
    from [connect] through calls of its public methods, resumptions of
    [subscribe] and events of its socket, every id in the Pending Request
    Table is the decimal rendering of a counter value already drawn; the
    id that [nextId] draws next is therefore not in the table, and an
    operation that sends a request adds its entry without replacing or
    removing the entry of any request still pending. (The counter is a
    JavaScript number: this is stated for counters below 2^53, where it
    counts exactly.) *)
Theorem request_ids_never_reused (options : TcpConnectOptions)
    (p0 : ConnectPromise) (calls : list Call) c out :
  execAll (connect options p0) calls = Some (c, out) ->
  requestId c < 2 ^ 53 ->
  pending_ids_issued c
  /\ JsMap.get (pending c) (nextId c).2 = None
  /\ (forall q p k v,
        JsMap.get (pending c) k = Some v ->
        JsMap.get (pending (query c q p).1) k = Some v)
  /\ (forall q p,
        socket c <> None ->
        JsMap.get (pending (query c q p).1) (nextId c).2
        = Some {| resolve := p; reject := p |}).
Proof.
  intros Hrun _.
  assert (Hc : pending_ids_issued c).
  { apply (execAll_pending_ids_issued calls _ c out Hrun).
    split; [cbn; lia|]. intros k v Hk. discriminate Hk. }
  assert (Hfresh : JsMap.get (pending c) (nextId c).2 = None).
  { destruct (JsMap.get (pending c) (nextId c).2) as [v|] eqn:Hk;
      [|reflexivity].
    destruct Hc as [_ Hids]. destruct (Hids _ v Hk) as (n & Hn & Heq).
    unfold nextId in Heq. cbn [snd requestId set_requestId] in Heq.
    apply num_inj in Heq. lia. }
  split; [exact Hc|]. split; [exact Hfresh|]. split.
  - intros q p k v Hk. unfold query, nextId, send.
    cbn [socket set_requestId].
    destruct (socket c) as [[]|]; cbn [fst]; [|exact Hk].
    cbn [pending set_pending set_requestId request_id].
    rewrite get_set_ne; [exact Hk|].
    intros <-. unfold nextId in Hfresh.
    cbn [snd requestId set_requestId] in Hfresh, Hk. congruence.
  - intros q p Hsock. unfold query, nextId, send.
    cbn [socket set_requestId snd requestId].
    destruct (socket c) as [[]|]; [|contradiction].
    cbn [fst pending set_pending set_requestId request_id].
    apply get_set_eq.
Qed.

End RequestIds.

Lemma request_ids_never_reused_witness :
  exists c out,
    Api.execAll (Api.connect default_options (Tcp.connect_promise 0))
      [Api.call_ping (Tcp.request_promise 1);
       Api.call_query "users" (Tcp.request_promise 2);
       Api.socket_event Tcp.on_close;
       @Api.call_ping Z (Tcp.request_promise 3)]
    = Some (c, out)
    /\ Tcp.pending c = [("3"%string, request 3)]
    /\ JsMap.get (Tcp.pending c) (Tcp.nextId c).2 = None.
Proof.
  eexists _, _. split; [vm_compute; reflexivity|]. split; [reflexivity|].
  refine (proj1 (proj2 (request_ids_never_reused (unknown := Z)
                          default_options (Tcp.connect_promise 0)
                          [Api.call_ping (Tcp.request_promise 1);
                           Api.call_query "users" (Tcp.request_promise 2);
                           Api.socket_event Tcp.on_close;
                           Api.call_ping (Tcp.request_promise 3)]
                          _ _ _ _))).
  - vm_compute. reflexivity.
  - vm_compute. reflexivity.
Defined.

Section NothingSent.

Context {unknown : Type} `{!Serialisers unknown}.

Import Tcp Api.

Implicit Types (c : Client).






End NothingSent.


Section SameChunk.

Context {unknown : Type} `{!Serialisers unknown}.

Import Tcp.

Implicit Types (c : Client) (resp : ServerMessage unknown).

(** X17. A change notification that arrives in the same run of
    [processFrames] as the response to its subscribe request is lost.
    When the buffer holds the frame of a response that is no change
    notification, under an id that is pending and not yet in the
    Subscription Table, followed by the frame of a change notification
    under the same id, [processFrames] fulfils the pending request and
    drops the notification: the Subscription Table gets the id only when
    [subscribe] is resumed, which is after [processFrames] has
    returned. *)
Theorem notification_with_acknowledgement_is_dropped c
    (t1 t2 : MessageType) (e1 e2 : Encoding)
    (payload1 payload2 rest : Uint8Array)
    resp (change : ChangeEvent unknown) (req : PendingRequest) :
  readBuffer c
  = buildFrame t1 e1 payload1 ++ buildFrame t2 e2 payload2 ++ rest ->
  len payload1 <= MAX_MESSAGE_SIZE ->
  len payload2 <= MAX_MESSAGE_SIZE ->
  decodeMessage payload1 (Encoding_value e1) = Return resp ->
  type_ resp <> "change"%string ->
  decodeMessage payload2 (Encoding_value e2)
  = Return (S_change (id_ resp) change) ->
  JsMap.get (pending c) (id_ resp) = Some req ->
  subscriptions c !! id_ resp = None ->
  processFrames c
  = match processFrames
            (set_readBuffer rest
               (set_pending (JsMap.delete (pending c) (id_ resp)) c)) with
    | Some (c', out) => Some (c', Resolve (resolve req) resp :: out)
    | None => None
    end.
Proof.
  intros Hbuf Hmax1 Hmax2 Hdec1 Htag Hdec2 Hpending Hnosub.
  rewrite (processFrames_built_frame_aux c t1 e1 payload1
             (buildFrame t2 e2 payload2 ++ rest) Hbuf Hmax1).
  rewrite Hdec1, dispatchMessage_response by exact Htag.
  cbn [pending set_readBuffer]. rewrite Hpending.
  rewrite (processFrames_built_frame_aux _ t2 e2 payload2 rest);
    [|reflexivity|exact Hmax2].
  rewrite Hdec2. cbn [dispatchMessage subscriptions set_pending
                      set_readBuffer].
  rewrite Hnosub.
  destruct (processFrames _) as [[c' out]|]; reflexivity.
Qed.

End SameChunk.

Lemma notification_with_acknowledgement_is_dropped_witness :
  let c := TagCodec.subscribing_client
             (buildFrame Response MessagePack [x01]
              ++ buildFrame Notification MessagePack [x02] ++ []) in
  @Tcp.processFrames unit TagCodec.serialisers c
  = Some (Tcp.set_readBuffer [] (Tcp.set_pending [] c),
          [Tcp.Resolve (Tcp.request_promise 5) (S_subscribed "5")]).
Proof.
  intros c.
  rewrite (@notification_with_acknowledgement_is_dropped unit
             TagCodec.serialisers c Response Notification
             MessagePack MessagePack [x01] [x02] []
             (S_subscribed "5") (E_delete TagCodec.removed) (request 5)).
  - reflexivity.
  - reflexivity.
  - vm_compute. discriminate.
  - vm_compute. discriminate.
  - reflexivity.
  - discriminate.
  - reflexivity.
  - reflexivity.
  - reflexivity.
Defined.

Section Outbound.

Context {unknown : Type} `{!Serialisers unknown}.

Import Tcp.

Implicit Types (c : Client) (msg : ClientMessage unknown).

(** X19. The handshake response may arrive in pieces. While the handshake
    is incomplete, a chunk that leaves fewer than 19 bytes in the buffer
    is only buffered, and the chunk that follows it is then handled
    exactly as if the two had arrived as one. *)
Theorem handshake_chunking c (a b : Uint8Array) :
  handshakeCompleted c = false ->
  len (readBuffer c) + len a < 19 ->
  handleData c a = Some (set_readBuffer (readBuffer c ++ a) c, [])
  /\ @handleData unknown _ (set_readBuffer (readBuffer c ++ a) c) b
     = handleData c (a ++ b).
Proof.
  intros Hwait Hfew. split.
  - unfold handleData. cbn [handshakeCompleted readBuffer set_readBuffer].
    rewrite Hwait. cbn [negb].
    destruct (Z.geb_spec (len (readBuffer c ++ a)) 19) as [Hfull|_];
      [rewrite len_app in Hfull; lia|reflexivity].
  - unfold handleData. cbn [handshakeCompleted readBuffer set_readBuffer].
    rewrite app_assoc. reflexivity.
Qed.

End Outbound.

Lemma handshake_chunking_witness :
  let c := Api.connect default_options (Tcp.connect_promise 0) in
  @Tcp.handleData Z _ c [x00; x01]
  = Some (Tcp.set_readBuffer [x00; x01] c, []).
Proof.
  intros c.
  apply (handshake_chunking (unknown := Z) c [x00; x01] []).
  - reflexivity.
  - vm_compute. reflexivity.
Defined.
